(** * Budou: chunk model, chunk lists, entity grouping, dependency
    resolution and HTML serialization (src/budou/budou.py).

    Python objects are mutable and are shared by reference: a [ChunkList]
    holds references to [Chunk] objects, [update_word] mutates a chunk in
    place and [list.index] finds a chunk by identity.  The embedding
    therefore keeps an explicit object store ([heap]) and represents a
    chunk list as a list of references into it. *)

From stdpp Require Import base option list numbers strings gmap fin_maps.

Open Scope Z_scope.

(** ** Python runtime pieces used by the source *)

Module Py.

(** A Python text string: a sequence of Unicode code points. *)
Definition unicode := list N.

(** An ASCII literal of the source as code points. *)
Definition u (s : string) : unicode :=
  Ascii.N_of_ascii <$> String.list_ascii_of_string s.

(** The character compared against in [get_overlaps]: [' ']. *)
Definition SP : N := 32%N.

(** [sep.join(ws)] with the empty separator. *)
Definition join (ws : list unicode) : unicode := concat ws.

(** [len(s)] as a Python integer. *)
Definition len {A} (l : list A) : Z := Z.of_nat (length l).

Inductive exn := IndexError | ValueError.

Inductive result (A : Type) :=
| Ok (a : A)
| Raise (e : exn).
Arguments Ok {A} a.
Arguments Raise {A} e.

Definition bind {A B} (m : result A) (k : A → result B) : result B :=
  match m with
  | Ok a => k a
  | Raise e => Raise e
  end.

(** A list comprehension whose element expression may raise: elements are
    evaluated left to right and the first exception aborts it. *)
Fixpoint comprehension {A B} (f : A → result B) (l : list A) : result (list B) :=
  match l with
  | [] => Ok []
  | x :: l' =>
      bind (f x) (λ y, bind (comprehension f l') (λ ys, Ok (y :: ys)))
  end.

(** [s[i]] for an integer index: negative indices count from the end,
    anything outside [-len(s), len(s)) raises IndexError. *)
Definition getitem {A} (l : list A) (i : Z) : result A :=
  let i' := if i <? 0 then i + len l else i in
  if i' <? 0 then Raise IndexError
  else match l !! Z.to_nat i' with
       | Some x => Ok x
       | None => Raise IndexError
       end.

(** [l.index(x)]: position of the first element equal to [x], ValueError
    when there is none. *)
Fixpoint index `{EqDecision A} (l : list A) (x : A) : result nat :=
  match l with
  | [] => Raise ValueError
  | y :: l' =>
      if decide (y = x) then Ok 0%nat
      else bind (index l' x) (λ i, Ok (S i))
  end.

(** [del l[a:b]] for indices [0 <= a] and [0 <= b]: removes the positions
    [a <= i < b]; nothing is removed when [b <= a]. *)
Definition del_slice {A} (l : list A) (a b : nat) : list A :=
  take a l ++ drop (a `max` b)%nat l.

(** [l.insert(a, x)] for [0 <= a]: inserts before position [a], at the end
    when [a] is past it. *)
Definition insert {A} (l : list A) (a : nat) (x : A) : list A :=
  take a l ++ x :: drop a l.

(** [s.split()] without arguments: the maximal runs of characters that are
    not whitespace, in order; [word] is the run being read.  [isspace] is
    [str.isspace] on one character. *)
Fixpoint split_from (isspace : N → bool) (s : unicode) (word : unicode)
    : list unicode :=
  match s with
  | [] =>
      match word with
      | [] => []
      | _ => [word]
      end
  | c :: s' =>
      if isspace c then
        match word with
        | [] => split_from isspace s' []
        | _ => word :: split_from isspace s' []
        end
      else split_from isspace s' (word ++ [c])
  end.

Definition split (isspace : N → bool) (s : unicode) : list unicode :=
  split_from isspace s [].

(** [s.replace(c, '')] for a one-character string [c]. *)
Definition remove_char (c : N) (s : unicode) : unicode :=
  filter (λ x, x ≠ c) s.

(** [s.lstrip()] and [s.strip()] without arguments. *)
Fixpoint lstrip (isspace : N → bool) (s : unicode) : unicode :=
  match s with
  | [] => []
  | c :: s' => if isspace c then lstrip isspace s' else s
  end.

Definition strip (isspace : N → bool) (s : unicode) : unicode :=
  reverse (lstrip isspace (reverse (lstrip isspace s))).

(** The integer value of the flag [re.I]. *)
Definition re_I : nat := 2.

End Py.

Notation "x ←! m ; k" := (Py.bind m (λ x : _, k))
  (at level 20, m at level 100, k at level 200, only parsing).
Notation "' x ←! m ; k" := (Py.bind m (λ x : _, k))
  (at level 20, x pattern, m at level 100, k at level 200, only parsing).

(** ** class Chunk *)

Module Chunk.

(** The attributes of a chunk object.  [dependency] is Python's
    [None] / [True] / [False]: no direction, concatenate to the following
    word, concatenate to the previous word. *)
Record t := mk {
  word : Py.unicode;
  pos : option string;
  label : option string;
  dependency : option bool
}.

#[global] Instance t_eq_dec : EqDecision t.
Proof. solve_decision. Defined.

#[global] Instance t_inhabited : Inhabited t := populate (mk [] None None None).

Definition SPACE_POS : string := "SPACE".

Definition DEPENDENT_LABEL : list string :=
  ["P"; "SNUM"; "PRT"; "AUX"; "SUFF"; "MWV"; "AUXPASS"; "AUXVV"; "RDROP";
   "NUMBER"; "NUM"].

Section Construct.

(** [unicodedata.category] on a single code point (the Unicode character
    database is not part of the repository). *)
Variable category : N → string.

(** [unicodedata.category(self.word)]: raises TypeError unless the argument
    is a string of length one; the bare [except] of the caller swallows
    it, so failure is [None] here. *)
Definition category_of (w : Py.unicode) : option string :=
  match w with
  | [c] => Some (category c)
  | _ => None
  end.

Definition _add_dependency_if_punct (self : t) : t :=
  if decide (pos self = Some "PUNCT") then
    match category_of (word self) with
    | Some cat =>
        mk (word self) (pos self) (label self)
           (Some (bool_decide (cat ∈ ["Ps"; "Pi"])))
    | None => self
    end
  else self.

(** [Chunk.__init__(word, pos, label, dependency)]: the attribute values of
    the object under construction. *)
Definition __init__ (word : Py.unicode) (pos label : option string)
    (dependency : option bool) : t :=
  _add_dependency_if_punct (mk word pos label dependency).

(** [Chunk.space()] *)
Definition space : t := __init__ (Py.u " ") (Some SPACE_POS) None None.

End Construct.

Definition is_space (self : t) : bool :=
  bool_decide (pos self = Some SPACE_POS).

Definition update_word (self : t) (w : Py.unicode) : t :=
  mk w (pos self) (label self) (dependency self).

Definition in_DEPENDENT_LABEL (l : option string) : bool :=
  match l with
  | Some s => bool_decide (s ∈ DEPENDENT_LABEL)
  | None => false
  end.

Definition maybe_add_dependency (self : t) (default_dependency_direction : bool) : t :=
  if bool_decide (dependency self = None) && in_DEPENDENT_LABEL (label self)
  then mk (word self) (pos self) (label self) (Some default_dependency_direction)
  else self.

End Chunk.

(** ** The object store *)

(** A reference is the identity of a chunk object. *)
Abbreviation ref := nat.

Abbreviation heap := (gmap nat Chunk.t).

Module Heap.

Definition get (h : heap) (r : ref) : Chunk.t := h !!! r.

(** Creating an object gives it an identity no live object has. *)
Definition alloc (c : Chunk.t) (h : heap) : ref * heap :=
  let r := fresh (dom h) in (r, <[r := c]> h).

(** [chunk.update_word(w)] on the object [r]. *)
Definition update_word (r : ref) (w : Py.unicode) (h : heap) : heap :=
  <[r := Chunk.update_word (get h r) w]> h.

(** [chunk.maybe_add_dependency(d)] on the object [r]. *)
Definition maybe_add_dependency (r : ref) (d : bool) (h : heap) : heap :=
  <[r := Chunk.maybe_add_dependency (get h r) d]> h.

(** The attribute values of the objects of a list, in order. *)
Definition view (h : heap) (cs : list ref) : list Chunk.t := get h <$> cs.

(** [''.join([chunk.word for chunk in cs])] *)
Definition text (h : heap) (cs : list ref) : Py.unicode :=
  Py.join (Chunk.word <$> view h cs).

End Heap.

(** ** class ChunkList(list) *)

Module ChunkList.

(** The [for] loop of [get_overlaps]; [index] and [result] are its locals. *)
Fixpoint overlaps_loop (h : heap) (offset length : Z) (self : list ref)
    (index : Z) (result : list ref) : list ref :=
  match self with
  | [] => result
  | chunk :: rest =>
      let w := Chunk.word (Heap.get h chunk) in
      let result :=
        if (offset <? index + Py.len w) && (index <? offset + length)
        then result ++ [chunk] else result in
      overlaps_loop h offset length rest (index + Py.len w) result
  end.

Definition get_overlaps (h : heap) (self : list ref) (offset length : Z)
    : Py.result (list ref) :=
  c ←! Py.getitem (Heap.text h self) offset ;
  let offset := if decide (c = Py.SP) then offset + 1 else offset in
  Py.Ok (overlaps_loop h offset length self 0 []).

(** [swap] mutates the list in place; the value returned here is the list
    after the call.  [list.index] compares chunk objects, which define no
    [__eq__], by identity. *)
Definition swap (self old_chunks : list ref) (new_chunk : ref)
    : Py.result (list ref) :=
  indexes ←! Py.comprehension (Py.index self) old_chunks ;
  first ←! Py.getitem indexes 0 ;
  last ←! Py.getitem indexes (-1) ;
  let self := Py.del_slice self first (last + 1)%nat in
  Py.Ok (Py.insert self first new_chunk).

End ChunkList.

(** ** lxml element trees *)

Module Etree.

(** An [lxml.etree] element: tag, attribute dictionary, text before the
    first child, children, text after the closing tag. *)
#[warnings="-register-all"]
Inductive Element := mk {
  tag : string;
  attrib : gmap string string;
  text : option Py.unicode;
  children : list Element;
  tail : option Py.unicode
}.

(** [lxml.etree.Element(tag)] *)
Definition new (tag : string) : Element := mk tag ∅ None [] None.

Definition set_text (e : Element) (t : Py.unicode) : Element :=
  mk (tag e) (attrib e) (Some t) (children e) (tail e).

Definition set_tail (e : Element) (t : Py.unicode) : Element :=
  mk (tag e) (attrib e) (text e) (children e) (Some t).

(** [e.attrib[k] = v] *)
Definition set_attrib (k v : string) (e : Element) : Element :=
  mk (tag e) (<[k := v]> (attrib e)) (text e) (children e) (tail e).

(** The characters lxml accepts in a text: the [Char] production of XML 1.0.
    The control characters other than tab, line feed and carriage return,
    the surrogates, U+FFFE and U+FFFF are not among them. *)
Definition xml_char (c : N) : bool :=
  (bool_decide (c = 9) || bool_decide (c = 10) || bool_decide (c = 13)
   || ((32 <=? c) && (c <=? 55295))
   || ((57344 <=? c) && (c <=? 65533))
   || ((65536 <=? c) && (c <=? 1114111)))%N.

Definition xml_compatible (t : Py.unicode) : bool := forallb xml_char t.

(** [e.text = t]: lxml raises ValueError ("All strings must be XML
    compatible") for a text with a character outside [xml_char]. *)
Definition assign_text (e : Element) (t : Py.unicode) : Py.result Element :=
  if xml_compatible t then Py.Ok (set_text e t) else Py.Raise Py.ValueError.

(** [e.attrib[k] = v]: lxml raises ValueError for a name that is not an XML
    name and for a value that is not XML compatible; [attrib_ok k v] tells
    whether it accepts the assignment. *)
Definition assign_attrib (attrib_ok : string → string → bool)
    (k v : string) (e : Element) : Py.result Element :=
  if attrib_ok k v then Py.Ok (set_attrib k v e) else Py.Raise Py.ValueError.

(** [doc.append(ele)] *)
Definition append (doc ele : Element) : Element :=
  mk (tag doc) (attrib doc) (text doc) (children doc ++ [ele]) (tail doc).

(** [doc.getchildren()[-1].tail = t], for a [doc] that has children. *)
Definition set_last_child_tail (doc : Element) (t : Py.unicode) : Element :=
  mk (tag doc) (attrib doc) (text doc)
     (alter (λ e, set_tail e t) (length (children doc) - 1)%nat (children doc))
     (tail doc).

End Etree.

(** ** class Budou *)

Module Budou.

(** A token of the Syntax Analysis response: [token['text']['content']],
    [token['text']['beginOffset']], [token['dependencyEdge']['label']],
    [token['dependencyEdge']['headTokenIndex']] and
    [token['partOfSpeech']['tag']]. *)
Record Token := mkToken {
  content : Py.unicode;
  beginOffset : Z;
  dep_label : string;
  headTokenIndex : Z;
  tag : string
}.

(** An entity of the Entity Analysis response: [entity['beginOffset']] and
    [entity['content']]. *)
Record Entity := mkEntity {
  entity_beginOffset : Z;
  entity_content : Py.unicode
}.

(** The [attributes] argument of [parse]: absent, a class name, or a
    dictionary. *)
Inductive attributes_arg :=
| AttrNone
| AttrStr (s : string)
| AttrDict (d : gmap string string).

Definition DEFAULT_CLASS_NAME : string := "ww".

(** [d.setdefault(k, v)], the dictionary afterwards. *)
Definition setdefault (k v : string) (d : gmap string string) : gmap string string :=
  match d !! k with
  | Some _ => d
  | None => <[k := v]> d
  end.

Definition _get_attribute_dict (attributes : attributes_arg)
    (classname : option string) : gmap string string :=
  match attributes with
  | AttrStr (String _ _ as s) => {[ "class"%string := s ]}
  | _ =>
      let attributes :=
        match attributes with
        | AttrDict d => d
        | _ => ∅
        end in
      let classname :=
        match classname with
        | Some (String _ _ as c) => c
        | _ => DEFAULT_CLASS_NAME
        end in
      setdefault "class" classname attributes
  end.

(** *** _concatenate_inner and _resolve_dependency *)

(** The condition under which the loop of [_concatenate_inner] keeps a
    chunk in the bucket. *)
Definition concat_cond (direction : bool) (c : Chunk.t) : bool :=
  bool_decide (Chunk.dependency c = Some direction)
  || (bool_decide (direction = false) && Chunk.is_space c).

(** The [for] loop of [_concatenate_inner]; [tmp_bucket] and
    [target_chunks] are its locals, the heap carries the chunk objects that
    [update_word] mutates. *)
Fixpoint concat_loop (direction : bool) (source_chunks : list ref)
    (tmp_bucket target_chunks : list ref) (h : heap) : list ref * heap :=
  match source_chunks with
  | [] =>
      (match tmp_bucket with
       | [] => target_chunks
       | _ => target_chunks ++ tmp_bucket
       end, h)
  | chunk :: rest =>
      if concat_cond direction (Heap.get h chunk) then
        concat_loop direction rest (tmp_bucket ++ [chunk]) target_chunks h
      else
        let tmp_bucket := tmp_bucket ++ [chunk] in
        let tmp_bucket := if direction then tmp_bucket else reverse tmp_bucket in
        let new_word := Py.join (Chunk.word <$> Heap.view h tmp_bucket) in
        let h := Heap.update_word chunk new_word h in
        concat_loop direction rest [] (target_chunks ++ [chunk]) h
  end.

Definition _concatenate_inner (chunks : list ref) (direction : bool)
    (h : heap) : list ref * heap :=
  let source_chunks := if direction then chunks else reverse chunks in
  let '(target_chunks, h) := concat_loop direction source_chunks [] [] h in
  (if direction then target_chunks else reverse target_chunks, h).

Definition _resolve_dependency (chunks : list ref) (h : heap)
    : list ref * heap :=
  let '(chunks, h) := _concatenate_inner chunks true h in
  _concatenate_inner chunks false h.

(** *** _html_serialize *)

Section Serialize.

(** Whether lxml accepts the attribute assignment [ele.attrib[k] = v], and
    [lxml.etree.tostring(doc, pretty_print=False, encoding='utf-8')
    .decode('utf-8')] and [lxml.html.clean.clean_html]: library functions
    outside the repository. *)
Variable attrib_ok : string → string → bool.
Variable tostring : Etree.Element → Py.unicode.
Variable clean_html : Py.unicode → Py.unicode.

(** [for k, v in attributes.items(): ele.attrib[k] = v]; the first
    assignment lxml refuses ends the loop with its ValueError. *)
Definition copy_attributes (attributes : gmap string string)
    (ele : Etree.Element) : Py.result Etree.Element :=
  map_fold (λ k v (acc : Py.result Etree.Element),
              ele ←! acc ; Etree.assign_attrib attrib_ok k v ele)
    (Py.Ok ele) attributes.

(** The [for] loop of [_html_serialize] over the element [doc].  The tail
    [' '] is XML compatible, so that assignment never raises. *)
Fixpoint serialize_loop (h : heap) (attributes : gmap string string)
    (chunks : list ref) (doc : Etree.Element) : Py.result Etree.Element :=
  match chunks with
  | [] => Py.Ok doc
  | chunk :: rest =>
      let c := Heap.get h chunk in
      if Chunk.is_space c then
        match Etree.children doc with
        | [] => serialize_loop h attributes rest doc
        | _ =>
            serialize_loop h attributes rest
              (Etree.set_last_child_tail doc (Py.u " "))
        end
      else
        let ele := Etree.new "span" in
        ele ←! Etree.assign_text ele (Chunk.word c) ;
        ele ←! copy_attributes attributes ele ;
        serialize_loop h attributes rest (Etree.append doc ele)
  end.

(** The element tree [doc] when the loop has ended. *)
Definition html_doc (h : heap) (chunks : list ref)
    (attributes : gmap string string) : Py.result Etree.Element :=
  serialize_loop h attributes chunks (Etree.new "span").

Definition _html_serialize (h : heap) (chunks : list ref)
    (attributes : gmap string string) : Py.result Py.unicode :=
  doc ←! html_doc h chunks attributes ;
  let result := tostring doc in
  let result := clean_html result in
  Py.Ok result.

End Serialize.

(** *** Building the chunk list *)

Section Parser.

Variable category : N → string.

(** The [for] loop of [_get_source_chunks] from token number [i] on;
    [tokens] is the answer of [api.get_annotations]. *)
Fixpoint source_chunks_loop (i : nat) (tokens : list Token)
    (chunks : list ref) (sentence_length : Z) (h : heap) : list ref * heap :=
  match tokens with
  | [] => (chunks, h)
  | token :: rest =>
      let word := content token in
      let begin_offset := beginOffset token in
      let label := dep_label token in
      let pos := tag token in
      let '(chunks, sentence_length, h) :=
        if sentence_length <? begin_offset then
          let '(sp, h) := Heap.alloc (Chunk.space category) h in
          (chunks ++ [sp], begin_offset, h)
        else (chunks, sentence_length, h) in
      let '(chunk, h) :=
        Heap.alloc (Chunk.__init__ category word (Some pos) (Some label) None) h in
      let h :=
        Heap.maybe_add_dependency chunk (Z.of_nat i <? headTokenIndex token) h in
      source_chunks_loop (S i) rest (chunks ++ [chunk])
        (sentence_length + Py.len word) h
  end.

Definition _get_source_chunks (tokens : list Token) (h : heap)
    : list ref * heap :=
  source_chunks_loop 0 tokens [] 0 h.

Fixpoint _group_chunks_by_entities (chunks : list ref)
    (entities : list Entity) (h : heap) : Py.result (list ref * heap) :=
  match entities with
  | [] => Py.Ok (chunks, h)
  | entity :: rest =>
      chunks_to_concat ←!
        ChunkList.get_overlaps h chunks (entity_beginOffset entity)
          (Py.len (entity_content entity)) ;
      match chunks_to_concat with
      | [] => _group_chunks_by_entities chunks rest h
      | _ =>
          let new_chunk_word :=
            Py.join (Chunk.word <$> Heap.view h chunks_to_concat) in
          let '(new_chunk, h) :=
            Heap.alloc (Chunk.__init__ category new_chunk_word None None None) h in
          chunks ←! ChunkList.swap chunks chunks_to_concat new_chunk ;
          _group_chunks_by_entities chunks rest h
      end
  end.

(** [_get_chunks_with_api]; [entities] is the answer of [api.get_entities]
    when [use_entity] is set and [None] otherwise. *)
Definition _get_chunks_with_api (tokens : list Token)
    (entities : option (list Entity)) (h : heap) : Py.result (list ref * heap) :=
  let '(chunks, h) := _get_source_chunks tokens h in
  '(chunks, h) ←!
    match entities with
    | Some entities => _group_chunks_by_entities chunks entities h
    | None => Py.Ok (chunks, h)
    end ;
  Py.Ok (_resolve_dependency chunks h).

End Parser.

(** *** _get_chunks_per_space *)

Section PerSpace.

Variable category : N → string.
Variable isspace : N → bool.

(** The [for] loop of [_get_chunks_per_space] from word number [i] on;
    [n] is [len(words)]. *)
Fixpoint per_space_loop (i : nat) (n : Z) (words : list Py.unicode)
    (chunks : list ref) (h : heap) : list ref * heap :=
  match words with
  | [] => (chunks, h)
  | word :: rest =>
      let '(chunk, h) :=
        Heap.alloc (Chunk.__init__ category word None None None) h in
      let chunks := chunks ++ [chunk] in
      let '(chunks, h) :=
        if Z.of_nat i <? n - 1 then
          let '(sp, h) := Heap.alloc (Chunk.space category) h in
          (chunks ++ [sp], h)
        else (chunks, h) in
      per_space_loop (S i) n rest chunks h
  end.

Definition _get_chunks_per_space (input_text : Py.unicode) (h : heap)
    : list ref * heap :=
  let words := Py.split isspace input_text in
  per_space_loop 0 (Py.len words) words [] h.

End PerSpace.

(** *** _preprocess *)

Section Preprocess.

(** [str.isspace] on one character, and the character class [\s] of the
    [re] module (neither contains ['/'] or ['>']). *)
Variable isspace : N → bool.
Variable re_space : N → bool.

(** The length of the longest run of [\s] at the start of [s]. *)
Fixpoint space_run (s : Py.unicode) : nat :=
  match s with
  | [] => 0
  | c :: s' => if re_space c then S (space_run s') else 0
  end.

(** A match of [<br\s*\/?\s*>] at the start of [s]: its length.  The
    characters are ['<'], ['b'], ['r'], then whitespace, an optional
    ['/'], whitespace, and ['>']. *)
Definition match_br (s : Py.unicode) : option nat :=
  match s with
  | 60%N :: 98%N :: 114%N :: s1 =>
      let n1 := space_run s1 in
      let s2 := drop n1 s1 in
      let n2 := match s2 with 47%N :: _ => 1%nat | _ => 0%nat end in
      let s3 := drop n2 s2 in
      let n3 := space_run s3 in
      match drop n3 s3 with
      | 62%N :: _ => Some (3 + n1 + n2 + n3 + 1)%nat
      | _ => None
      end
  | _ => None
  end.

(** [re.sub(r'<br\s*\/?\s*>', u' ', s, count)]: the leftmost matches,
    at most [count] of them, are replaced by one space.  [skip] counts the
    characters of the current match that are still to be passed over. *)
Fixpoint sub_br (count skip : nat) (s : Py.unicode) : Py.unicode :=
  match s with
  | [] => []
  | c :: s' =>
      match skip with
      | S skip' => sub_br count skip' s'
      | O =>
          match count, match_br s with
          | S count', Some n => Py.SP :: sub_br count' (n - 1) s'
          | _, _ => c :: sub_br count 0 s'
          end
      end
  end.

(** [re.sub(r'\s\s+', u' ', s)]: every run of two or more [\s] is
    replaced by one space.  [in_run] holds while such a run is being
    passed over. *)
Fixpoint sub_spaces (in_run : bool) (s : Py.unicode) : Py.unicode :=
  match s with
  | [] => []
  | c :: s' =>
      if in_run then
        if re_space c then sub_spaces true s' else c :: sub_spaces false s'
      else if re_space c
              && match s' with c2 :: _ => re_space c2 | [] => false end
      then Py.SP :: sub_spaces true s'
      else c :: sub_spaces false s'
  end.

(** In [re.sub(pattern, repl, source, re.I)] the fourth positional
    argument is [count]. *)
Definition _preprocess (source : Py.unicode) : Py.unicode :=
  let source := Py.strip isspace (Py.remove_char 10%N source) in
  let source := sub_br Py.re_I 0 source in
  let source := sub_spaces false source in
  source.

End Preprocess.

End Budou.

(** ** An excerpt of the Unicode character database *)

(** General categories of Basic Latin and of a few quotation marks and CJK
    punctuation marks, as [unicodedata.category] reports them.  Code
    points outside the excerpt are reported as ["Cn"]; the concrete
    examples below only use code points inside it. *)
Definition category_excerpt (c : N) : string :=
  let c := Z.of_N c in
  if c <? 32 then "Cc"
  else if c =? 32 then "Zs"
  else if bool_decide (c ∈ [40; 91; 123; 12300; 12302]) then "Ps"
  else if bool_decide (c ∈ [41; 93; 125; 12301; 12303]) then "Pe"
  else if bool_decide (c ∈ [171; 8216; 8220]) then "Pi"
  else if bool_decide (c ∈ [187; 8217; 8221]) then "Pf"
  else if bool_decide (c ∈ [33; 34; 35; 37; 38; 39; 42; 44; 46; 47; 58; 59;
                            63; 64; 92; 12289; 12290]) then "Po"
  else if c =? 45 then "Pd"
  else if c =? 95 then "Pc"
  else if c =? 36 then "Sc"
  else if bool_decide (c ∈ [43; 60; 61; 62; 124; 126]) then "Sm"
  else if bool_decide (c ∈ [94; 96]) then "Sk"
  else if (48 <=? c) && (c <=? 57) then "Nd"
  else if (65 <=? c) && (c <=? 90) then "Lu"
  else if (97 <=? c) && (c <=? 122) then "Ll"
  else if c =? 127 then "Cc"
  else "Cn".

(** ** Concrete inputs *)

(** The characters for which [str.isspace] holds. *)
Definition isspace_table (c : N) : bool :=
  let c := Z.of_N c in
  ((9 <=? c) && (c <=? 13)) || ((28 <=? c) && (c <=? 32))
  || bool_decide (c ∈ [133; 160; 5760; 8232; 8233; 8239; 8287; 12288])
  || ((8192 <=? c) && (c <=? 8202)).

Module Examples.

(** [ChunkList([c1, c2, ...])] over freshly created chunk objects. *)
Fixpoint alloc_list (cs : list Chunk.t) (h : heap) : list ref * heap :=
  match cs with
  | [] => ([], h)
  | c :: cs' =>
      let '(r, h) := Heap.alloc c h in
      let '(rs, h) := alloc_list cs' h in
      (r :: rs, h)
  end.

(** The chunks ["Tokyo", <space>, "Tower"]. *)
Definition tokyo_tower (category : N → string) : list ref * heap :=
  alloc_list
    [Chunk.__init__ category (Py.u "Tokyo") None None None;
     Chunk.space category;
     Chunk.__init__ category (Py.u "Tower") None None None] ∅.

(** The entity "Tokyo Tower" at offset 0. *)
Definition tokyo_tower_entity : Budou.Entity :=
  Budou.mkEntity 0 (Py.u "Tokyo Tower").

(** The text "a\x01b c": its first word holds the control character
    U+0001. *)
Definition control_text : Py.unicode := [97; 1; 98; 32; 99]%N.

(** The annotation of "3 apples": a numeral that depends on the noun
    after it, and the noun. *)
Definition three_apples : list Budou.Token :=
  [Budou.mkToken (Py.u "3") 0 "NUM" 1 "NUM";
   Budou.mkToken (Py.u "apples") 2 "ROOT" 1 "NOUN"].

(** The annotation of "(a) b". *)
Definition bracketed : list Budou.Token :=
  [Budou.mkToken (Py.u "(") 0 "P" 1 "PUNCT";
   Budou.mkToken (Py.u "a") 1 "ROOT" 1 "NOUN";
   Budou.mkToken (Py.u ")") 2 "P" 1 "PUNCT";
   Budou.mkToken (Py.u "b") 4 "DEP" 1 "NOUN"].

(** The chunk list that [_get_source_chunks] builds for "(a) b". *)
Definition bracketed_chunks : list ref * heap :=
  Budou._get_source_chunks category_excerpt bracketed ∅.

End Examples.

(** ** Overlap, in the words of the specification *)

Module OverlapSpec.

(** The start of the chunk at position [i]: the sum of the word lengths of
    the chunks before it. *)
Definition start (h : heap) (cs : list ref) (i : nat) : Z :=
  Py.len (Heap.text h (take i cs)).

(** The ranges [[s, e)] and [[a, b)] have a position in common. *)
Definition ranges_intersect (s e a b : Z) : Prop :=
  ∃ p, (s ≤ p < e) ∧ (a ≤ p < b).

#[global] Instance ranges_intersect_dec s e a b :
  Decision (ranges_intersect s e a b).
Proof.
  refine (cast_if (decide (Z.max s a < Z.min e b)));
    abstract (unfold ranges_intersect;
              first [ exists (Z.max s a); lia | intros [p ?]; lia ]).
Defined.

(** Whether the chunk [r], standing at position [i] of [cs], intersects
    the range [[offset, offset + length)]. *)
Definition select (h : heap) (cs : list ref) (offset length : Z)
    (i : nat) (r : ref) : option ref :=
  let s := start h cs i in
  if decide (ranges_intersect s (s + Py.len (Chunk.word (Heap.get h r)))
               offset (offset + length))
  then Some r else None.

(** The chunks of [cs] whose range intersects [[offset, offset + length)],
    in list order. *)
Definition overlapping (h : heap) (cs : list ref) (offset length : Z)
    : list ref :=
  omap id (imap (select h cs offset length) cs).

End OverlapSpec.

(** ** The chunk of a token, in the words of the specification *)

Module SourceSpec.

(** The dependency of the chunk built for token number [i]: what
    construction assigned, if anything; otherwise, for a dependent label,
    forward when the head token comes later and backward when it does
    not; otherwise none. *)
Definition direction (category : N → string) (i : nat) (token : Budou.Token)
    : option bool :=
  match Chunk.dependency
          (Chunk.__init__ category (Budou.content token)
             (Some (Budou.tag token)) (Some (Budou.dep_label token)) None) with
  | Some d => Some d
  | None =>
      if bool_decide (Budou.dep_label token ∈ Chunk.DEPENDENT_LABEL)
      then Some (bool_decide (Z.of_nat i < Budou.headTokenIndex token))
      else None
  end.

Definition token_chunk (category : N → string) (i : nat)
    (token : Budou.Token) : Chunk.t :=
  Chunk.mk (Budou.content token) (Some (Budou.tag token))
    (Some (Budou.dep_label token)) (direction category i token).

(** The chunks of tokens carry a label; the space chunks put between them
    do not. *)
Definition of_token (c : Chunk.t) : Prop := is_Some (Chunk.label c).

End SourceSpec.

(** A chunk list all of whose members are distinct live objects. *)
Definition live (h : heap) (cs : list ref) : Prop :=
  NoDup cs ∧ ∀ r, r ∈ cs → r ∈ dom h.

(** ** Serialization, in the words of the specification *)

Module SerializeSpec.

(** The element of a non-space chunk: a [span] with the attribute mapping
    and the word as text; its tail is one space when a space chunk
    follows it. *)
Definition element (attributes : gmap string string) (c : Chunk.t)
    (space_follows : bool) : Etree.Element :=
  Etree.mk "span" attributes (Some (Chunk.word c)) []
    (if space_follows then Some (Py.u " ") else None).

Definition space_follows (cs : list Chunk.t) : bool :=
  match cs with
  | c :: _ => Chunk.is_space c
  | [] => false
  end.

(** One element per non-space chunk, in order; space chunks give none. *)
Fixpoint elements (attributes : gmap string string) (cs : list Chunk.t)
    : list Etree.Element :=
  match cs with
  | [] => []
  | c :: rest =>
      if Chunk.is_space c then elements attributes rest
      else element attributes c (space_follows rest) :: elements attributes rest
  end.

(** The children emitted so far, once the next chunk has been seen: a
    space chunk marks the last of them. *)
Definition mark (children : list Etree.Element) (cs : list Chunk.t)
    : list Etree.Element :=
  if space_follows cs
  then alter (λ e, Etree.set_tail e (Py.u " ")) (length children - 1)%nat children
  else children.

(** The attribute mapping holds no assignment that lxml refuses. *)
Definition attributes_ok (attrib_ok : string → string → bool)
    (attributes : gmap string string) : bool :=
  bool_decide (map_Forall (λ k v, attrib_ok k v = true) attributes).

(** The chunks on which the loop of the serializer goes on: a space chunk,
    and a chunk whose word lxml accepts as text when it also accepts every
    attribute. *)
Definition accepted (attrib_ok : string → string → bool)
    (attributes : gmap string string) (c : Chunk.t) : bool :=
  Chunk.is_space c
  || (Etree.xml_compatible (Chunk.word c) && attributes_ok attrib_ok attributes).

End SerializeSpec.

(** ** Token streams and word lists, as the properties below read them *)

Module TextSpec.

(** [text] without its prefix [pre], if it starts with [pre]. *)
Fixpoint strip_prefix (pre text : Py.unicode) : option Py.unicode :=
  match pre, text with
  | [], _ => Some text
  | a :: pre', b :: text' =>
      if decide (a = b) then strip_prefix pre' text' else None
  | _ :: _, [] => None
  end.

(** The tokens annotate [text] from position [p] on: each token's content
    stands in the text at its [beginOffset], directly after the previous
    token or after exactly one space, and nothing follows the last
    token. *)
Fixpoint annotates (p : Z) (tokens : list Budou.Token) (text : Py.unicode)
    : bool :=
  match tokens with
  | [] => bool_decide (text = [])
  | token :: rest =>
      let after_gap :=
        if Budou.beginOffset token =? p then Some text
        else if Budou.beginOffset token =? p + 1 then
          strip_prefix [Py.SP] text
        else None in
      match after_gap ≫= strip_prefix (Budou.content token) with
      | Some text' =>
          annotates (Budou.beginOffset token + Py.len (Budou.content token))
            rest text'
      | None => false
      end
  end.

(** The values of a list with [sep] between consecutive ones. *)
Fixpoint separated {A} (sep : A) (l : list A) : list A :=
  match l with
  | [] => []
  | [x] => [x]
  | x :: l' => x :: sep :: separated sep l'
  end.

(** The chunk of a word of the space-delimited path. *)
Definition word_chunk (w : Py.unicode) : Chunk.t := Chunk.mk w None None None.

(** The space chunk. *)
Definition space_chunk : Chunk.t :=
  Chunk.mk (Py.u " ") (Some Chunk.SPACE_POS) None None.

(** The elements of a list of words: every word in a [span], every one but
    the last followed by one space. *)
Fixpoint word_elements (attributes : gmap string string)
    (words : list Py.unicode) : list Etree.Element :=
  match words with
  | [] => []
  | [w] => [Etree.mk "span" attributes (Some w) [] None]
  | w :: ws =>
      Etree.mk "span" attributes (Some w) [] (Some (Py.u " "))
      :: word_elements attributes ws
  end.

(** [s] starts with a whitespace character. *)
Definition head_space (space : N → bool) (s : Py.unicode) : bool :=
  match s with
  | c :: _ => space c
  | [] => false
  end.

(** No two adjacent characters of [s] are both whitespace. *)
Fixpoint single_spaced (space : N → bool) (s : Py.unicode) : bool :=
  match s with
  | [] => true
  | c :: s' =>
      negb (space c && match s' with c2 :: _ => space c2 | [] => false end)
      && single_spaced space s'
  end.

(** The tag [<br>]. *)
Definition BR : Py.unicode := Py.u "<br>".

(** A word: non-empty and free of whitespace. *)
Definition is_word (isspace : N → bool) (w : Py.unicode) : Prop :=
  w ≠ [] ∧ Forall (λ c, isspace c = false) w.

(** [offset] is an index of the concatenated text of [cs], counting from
    either end. *)
Definition in_text (h : heap) (cs : list ref) (offset : Z) : Prop :=
  - Py.len (Heap.text h cs) ≤ offset < Py.len (Heap.text h cs).

End TextSpec.

(** ** The two passes as functions on chunk values

    A value-level rendering of [_concatenate_inner], used to reason about
    the loop: a cell pairs the identity of a chunk object with its
    attribute values.  [concat_loop_refines] below relates it to the
    loop over the object store. *)

Module Cells.

Definition cell : Type := ref * Chunk.t.

Definition snapshot (h : heap) (cs : list ref) : list cell :=
  (λ r, (r, Heap.get h r)) <$> cs.

Definition cond (d : bool) (x : cell) : bool := Budou.concat_cond d x.2.

Definition words (l : list cell) : list Py.unicode :=
  (λ x, Chunk.word x.2) <$> l.

Definition text (l : list cell) : Py.unicode := Py.join (words l).

(** The chunk a run ends in, after [update_word]. *)
Definition merge (d : bool) (bucket : list cell) (x : cell) : cell :=
  let bucket := bucket ++ [x] in
  let bucket := if d then bucket else reverse bucket in
  (x.1, Chunk.update_word x.2 (text bucket)).

Fixpoint loop (d : bool) (source bucket target : list cell) : list cell :=
  match source with
  | [] => target ++ bucket
  | x :: rest =>
      if cond d x then loop d rest (bucket ++ [x]) target
      else loop d rest [] (target ++ [merge d bucket x])
  end.

(** Document order to traversal order and back. *)
Definition trav {A} (d : bool) (l : list A) : list A :=
  if d then l else reverse l.

Definition pass (d : bool) (l : list cell) : list cell :=
  trav d (loop d (trav d l) [] []).

Definition resolve (l : list cell) : list cell := pass false (pass true l).

(** What the passes never change: identity, pos, label and dependency. *)
Definition key (x : cell) : ref * option string * option string * option bool :=
  (x.1, Chunk.pos x.2, Chunk.label x.2, Chunk.dependency x.2).

(** All cells that fail [P] come before all cells that satisfy it. *)
Definition partitioned (P : cell → bool) (l : list cell) : Prop :=
  ∃ A B, l = A ++ B ∧ Forall (λ x, P x = false) A ∧ Forall (λ x, P x = true) B.

End Cells.

(** * Properties *)

(** ** The object store *)

Section HeapFacts.

Implicit Types (h : heap) (r : ref) (cs : list ref).

Lemma get_insert_eq h r (c : Chunk.t) : Heap.get (<[r := c]> h) r = c.
Proof. apply lookup_total_insert_eq. Qed.

Lemma get_insert_ne h r r' (c : Chunk.t) :
  r ≠ r' → Heap.get (<[r := c]> h) r' = Heap.get h r'.
Proof. apply lookup_total_insert_ne. Qed.

Lemma get_update_word_eq h r w :
  Heap.get (Heap.update_word r w h) r = Chunk.update_word (Heap.get h r) w.
Proof. unfold Heap.update_word, Heap.get. by rewrite lookup_total_insert_eq. Qed.

Lemma get_update_word_ne h r r' w :
  r ≠ r' → Heap.get (Heap.update_word r w h) r' = Heap.get h r'.
Proof.
  intros Hne. unfold Heap.update_word, Heap.get.
  by rewrite lookup_total_insert_ne.
Qed.

Lemma snapshot_update_word_notin h r w cs :
  r ∉ cs →
  Cells.snapshot (Heap.update_word r w h) cs = Cells.snapshot h cs.
Proof.
  intros Hnotin. unfold Cells.snapshot.
  apply Forall_fmap_ext_1, Forall_forall.
  intros r' Hin. rewrite get_update_word_ne; [done|]. by intros ->.
Qed.

Lemma snapshot_fst h cs : (Cells.snapshot h cs).*1 = cs.
Proof.
  unfold Cells.snapshot. rewrite <- list_fmap_compose.
  rewrite <- (list_fmap_id cs) at 2. by apply list_fmap_ext.
Qed.

Lemma snapshot_snd h cs : (Cells.snapshot h cs).*2 = Heap.view h cs.
Proof.
  unfold Cells.snapshot, Heap.view. rewrite <- list_fmap_compose.
  by apply list_fmap_ext.
Qed.

Lemma snapshot_text h cs : Cells.text (Cells.snapshot h cs) = Heap.text h cs.
Proof.
  unfold Cells.text, Cells.words, Heap.text. rewrite <- snapshot_snd.
  by rewrite <- list_fmap_compose.
Qed.

Lemma snapshot_app h cs1 cs2 :
  Cells.snapshot h (cs1 ++ cs2) = Cells.snapshot h cs1 ++ Cells.snapshot h cs2.
Proof. apply fmap_app. Qed.

Lemma snapshot_reverse h cs :
  Cells.snapshot h (reverse cs) = reverse (Cells.snapshot h cs).
Proof. apply fmap_reverse. Qed.

End HeapFacts.

(** ** The loop of [_concatenate_inner] on values *)

Section CellLoop.

Import Cells.

Implicit Types (d : bool) (x : cell) (l src b t : list cell).

Lemma trav_involutive {A} d (l : list A) : trav d (trav d l) = l.
Proof. destruct d; simpl; [done | apply reverse_involutive]. Qed.

Lemma merge_nil d x : merge d [] x = x.
Proof.
  destruct x as [r [w p lb dp]].
  unfold merge, text, words, Py.join. destruct d; simpl; by rewrite app_nil_r.
Qed.

Lemma key_merge d b x : key (merge d b x) = key x.
Proof. reflexivity. Qed.

Lemma cond_key d x y : key x = key y → cond d x = cond d y.
Proof.
  unfold key, cond, Budou.concat_cond, Chunk.is_space.
  intros [= _ -> _ ->]. done.
Qed.

Lemma cond_merge d d' b x : cond d' (merge d b x) = cond d' x.
Proof. apply cond_key, key_merge. Qed.

Lemma loop_target d src b t : loop d src b t = t ++ loop d src b [].
Proof.
  revert b t. induction src as [|x rest IH]; intros b t; simpl; [done|].
  destruct (cond d x); [apply IH|].
  rewrite (IH [] (t ++ _)), (IH [] [_]). by rewrite <- app_assoc.
Qed.

Lemma loop_all d src b :
  Forall (λ x, cond d x = true) src → loop d src b [] = b ++ src.
Proof.
  intros Hall. revert b. induction Hall as [|x rest Hx _ IH]; intros b; simpl.
  - by rewrite app_nil_r.
  - rewrite Hx, IH. by rewrite <- app_assoc.
Qed.

(** A list that is already split into finished chunks followed by a
    dangling run passes through the loop unchanged. *)
Lemma loop_stable d l : partitioned (cond d) l → loop d l [] [] = l.
Proof.
  intros (A & B & -> & HA & HB).
  induction HA as [|x A Hx _ IH]; simpl.
  - by apply loop_all.
  - rewrite Hx, merge_nil, loop_target, IH. done.
Qed.

Lemma loop_shape d src b t :
  Forall (λ x, cond d x = false) t → Forall (λ x, cond d x = true) b →
  partitioned (cond d) (loop d src b t).
Proof.
  revert b t. induction src as [|x rest IH]; intros b t Ht Hb; simpl.
  - by exists t, b.
  - destruct (cond d x) eqn:Hx.
    + apply IH; [done|]. apply Forall_app; split; [done|]. by constructor.
    + apply IH; [|done]. apply Forall_app; split; [done|].
      constructor; [|done]. by rewrite cond_merge.
Qed.

Lemma loop_key_sublist d src b t :
  key <$> loop d src b t `sublist_of` key <$> (t ++ b ++ src).
Proof.
  revert b t. induction src as [|x rest IH]; intros b t; simpl.
  - by rewrite app_nil_r.
  - destruct (cond d x).
    + etrans; [apply IH|]. by rewrite <- (app_assoc b [x] rest).
    + etrans; [apply IH|]. simpl. rewrite <- app_assoc. simpl.
      rewrite !fmap_app, !fmap_cons, key_merge.
      apply sublist_app; [done|]. by apply sublist_inserts_l.
Qed.

Lemma sublist_reverse {A} (l k : list A) :
  l `sublist_of` k → reverse l `sublist_of` reverse k.
Proof.
  induction 1 as [|x l k _ IH|x l k _ IH]; [done|..]; rewrite ?reverse_cons.
  - by apply sublist_app.
  - by apply sublist_inserts_r.
Qed.

Lemma pass_key_sublist d l : key <$> pass d l `sublist_of` key <$> l.
Proof.
  unfold pass.
  pose proof (loop_key_sublist d (trav d l) [] []) as Hsub. simpl in Hsub.
  destruct d; simpl in *; [done|].
  rewrite fmap_reverse. rewrite fmap_reverse in Hsub.
  apply sublist_reverse in Hsub. by rewrite reverse_involutive in Hsub.
Qed.

Lemma partitioned_key_sublist (P : cell → bool) l l' :
  (∀ x y, key x = key y → P x = P y) →
  key <$> l' `sublist_of` key <$> l →
  partitioned P l → partitioned P l'.
Proof.
  intros HP Hsub (A & B & -> & HA & HB).
  rewrite fmap_app in Hsub. apply sublist_app_r in Hsub as (k1 & k2 & Heq & H1 & H2).
  apply fmap_app_inv in Heq as (A' & B' & -> & -> & ->).
  exists A', B'. split; [done|].
  split; apply Forall_forall; intros x Hx.
  - apply (list_elem_of_fmap_2 key) in Hx.
    apply (sublist_subseteq _ _ H1), list_elem_of_fmap in Hx as (y & Hk & Hy).
    rewrite (HP _ _ Hk). by eapply Forall_forall in HA.
  - apply (list_elem_of_fmap_2 key) in Hx.
    apply (sublist_subseteq _ _ H2), list_elem_of_fmap in Hx as (y & Hk & Hy).
    rewrite (HP _ _ Hk). by eapply Forall_forall in HB.
Qed.

Lemma pass_shape d l : partitioned (cond d) (trav d (pass d l)).
Proof.
  unfold pass. rewrite trav_involutive. apply loop_shape; constructor.
Qed.

Lemma pass_stable d l : partitioned (cond d) (trav d l) → pass d l = l.
Proof.
  intros Hp. unfold pass. rewrite loop_stable by done. apply trav_involutive.
Qed.

(** The two passes leave their own result unchanged. *)
Lemma resolve_cells_idempotent l : resolve (resolve l) = resolve l.
Proof.
  unfold resolve. set (R := pass false (pass true l)).
  assert (pass true R = R) as ->.
  { apply pass_stable. simpl.
    apply (partitioned_key_sublist _ (pass true l)).
    - intros x y. apply cond_key.
    - apply pass_key_sublist.
    - apply (pass_shape true). }
  apply pass_stable, pass_shape.
Qed.

End CellLoop.

Section CellText.

Import Cells.

Implicit Types (d : bool) (x : cell) (l src b t : list cell).

Lemma text_app l1 l2 : text (l1 ++ l2) = text l1 ++ text l2.
Proof. unfold text, words, Py.join. by rewrite fmap_app, concat_app. Qed.

Lemma text_trav_app d l1 l2 :
  text (trav d (l1 ++ l2)) =
  if d then text (trav d l1) ++ text (trav d l2)
  else text (trav d l2) ++ text (trav d l1).
Proof. destruct d; simpl; by rewrite ?reverse_app, text_app. Qed.

Lemma text_trav_merge d b x :
  text (trav d [merge d b x]) = text (trav d (b ++ [x])).
Proof.
  destruct d; simpl; unfold merge, text at 1, words, Py.join; simpl;
    by rewrite app_nil_r.
Qed.

Lemma loop_text d src b t :
  text (trav d (loop d src b t)) = text (trav d (t ++ b ++ src)).
Proof.
  revert b t. induction src as [|x rest IH]; intros b t; simpl.
  - by rewrite app_nil_r.
  - destruct (cond d x).
    + rewrite IH. by rewrite <- (app_assoc b [x] rest).
    + rewrite IH. simpl.
      replace (t ++ b ++ x :: rest) with (t ++ (b ++ [x]) ++ rest)
        by (by rewrite <- (app_assoc b [x] rest)).
      rewrite <- (app_assoc t [_] rest).
      rewrite !text_trav_app, text_trav_merge.
      destruct d; simpl; by rewrite ?reverse_app, ?text_app.
Qed.

Lemma pass_text d l : text (pass d l) = text l.
Proof.
  unfold pass.
  pose proof (loop_text d (trav d l) [] []) as Htext. simpl in Htext.
  rewrite Htext. by rewrite trav_involutive.
Qed.

Lemma resolve_cells_text l : text (resolve l) = text l.
Proof. unfold resolve. by rewrite !pass_text. Qed.

End CellText.

(** ** The loop over the object store computes the loop on values *)

Section Refinement.

Import Cells.

Implicit Types (d : bool) (h : heap) (cs src b t : list ref).

Lemma snapshot_merge d h b r :
  (r, Chunk.update_word (Heap.get h r)
        (Py.join (Chunk.word <$>
           Heap.view h (if d then b ++ [r] else reverse (b ++ [r])))))
  = merge d (snapshot h b) (r, Heap.get h r).
Proof.
  unfold merge. simpl. f_equal. f_equal.
  change (snapshot h b ++ [(r, Heap.get h r)]) with (snapshot h b ++ snapshot h [r]).
  rewrite <- snapshot_app.
  destruct d; [|rewrite <- snapshot_reverse]; by rewrite snapshot_text.
Qed.

Lemma concat_loop_refines d src b t h :
  NoDup (t ++ b ++ src) →
  snapshot (Budou.concat_loop d src b t h).2 (Budou.concat_loop d src b t h).1
  = loop d (snapshot h src) (snapshot h b) (snapshot h t).
Proof.
  revert b t h. induction src as [|chunk rest IH]; intros b t h Hnd; simpl.
  - destruct b; simpl; by rewrite ?app_nil_r, ?snapshot_app.
  - unfold cond at 1. simpl.
    destruct (Budou.concat_cond d (Heap.get h chunk)).
    + rewrite IH by (by rewrite <- (app_assoc b [chunk] rest)).
      by rewrite snapshot_app.
    + assert ((chunk ∉ t) ∧ (chunk ∉ rest) ∧ NoDup ((t ++ [chunk]) ++ [] ++ rest))
        as (Hct & Hcr & Hnd').
      { split_and!.
        - apply NoDup_app in Hnd as (_ & Hdisj & _).
          intros Hin. apply (Hdisj _ Hin). set_solver.
        - apply NoDup_app in Hnd as (_ & _ & Hnd).
          apply NoDup_app in Hnd as (_ & _ & Hnd).
          by apply NoDup_cons in Hnd as [? _].
        - eapply sublist_NoDup; [exact Hnd|]. simpl.
          rewrite <- app_assoc. apply sublist_app; [done|].
          by apply sublist_inserts_l. }
      rewrite IH by done.
      rewrite snapshot_app.
      rewrite (snapshot_update_word_notin _ _ _ t Hct).
      rewrite (snapshot_update_word_notin _ _ _ rest Hcr).
      f_equal. f_equal. unfold snapshot. simpl. rewrite get_update_word_eq.
      by rewrite snapshot_merge.
Qed.

Lemma concatenate_inner_refines cs d h :
  NoDup cs →
  snapshot (Budou._concatenate_inner cs d h).2 (Budou._concatenate_inner cs d h).1
  = pass d (snapshot h cs).
Proof.
  intros Hnd. unfold Budou._concatenate_inner, pass.
  pose proof (concat_loop_refines d (if d then cs else reverse cs) [] [] h) as Href.
  destruct (Budou.concat_loop _ _ _ _ _) as [target h'].
  simpl in *. destruct d; simpl.
  - by apply Href.
  - rewrite snapshot_reverse, Href, snapshot_reverse; [done|].
    by rewrite reverse_Permutation.
Qed.

Lemma pass_fst_sublist d (l : list cell) : (pass d l).*1 `sublist_of` l.*1.
Proof.
  pose proof (pass_key_sublist d l) as Hsub.
  apply (fmap_sublist (λ k, k.1.1.1)) in Hsub.
  by rewrite <- !list_fmap_compose in Hsub.
Qed.

Lemma concatenate_inner_sublist cs d h :
  NoDup cs → (Budou._concatenate_inner cs d h).1 `sublist_of` cs.
Proof.
  intros Hnd. rewrite <- (snapshot_fst h cs) at 2.
  rewrite <- (snapshot_fst (Budou._concatenate_inner cs d h).2
                           (Budou._concatenate_inner cs d h).1).
  rewrite concatenate_inner_refines by done. apply pass_fst_sublist.
Qed.

Lemma resolve_dependency_refines cs h :
  NoDup cs →
  snapshot (Budou._resolve_dependency cs h).2 (Budou._resolve_dependency cs h).1
  = resolve (snapshot h cs).
Proof.
  intros Hnd. unfold Budou._resolve_dependency, resolve.
  pose proof (concatenate_inner_refines cs true h Hnd) as H1.
  pose proof (concatenate_inner_sublist cs true h Hnd) as Hsub.
  destruct (Budou._concatenate_inner cs true h) as [cs1 h1]. simpl in *.
  rewrite <- H1. apply concatenate_inner_refines.
  by eapply sublist_NoDup.
Qed.

Lemma resolve_dependency_sublist cs h :
  NoDup cs → (Budou._resolve_dependency cs h).1 `sublist_of` cs.
Proof.
  intros Hnd. unfold Budou._resolve_dependency.
  pose proof (concatenate_inner_sublist cs true h Hnd) as Hsub.
  destruct (Budou._concatenate_inner cs true h) as [cs1 h1]. simpl in *.
  etrans; [|exact Hsub]. apply concatenate_inner_sublist.
  by eapply sublist_NoDup.
Qed.

End Refinement.

(** ** Dependency resolution *)

Section Resolve.

Implicit Types (h : heap) (cs : list ref).

(** C6. For a chunk list of distinct chunk objects (the lists that
    [_get_source_chunks] and [_group_chunks_by_entities] build, see
    [source_chunks_live] and [group_chunks_live]), the forward pass, the
    backward pass and the two-pass resolution each leave the concatenation
    of the chunk words, read in list order, unchanged. *)
Theorem resolve_preserves_text cs h :
  NoDup cs →
  (∀ d, Heap.text (Budou._concatenate_inner cs d h).2
                  (Budou._concatenate_inner cs d h).1 = Heap.text h cs)
  ∧ Heap.text (Budou._resolve_dependency cs h).2
              (Budou._resolve_dependency cs h).1 = Heap.text h cs.
Proof.
  intros Hnd. split.
  - intros d. rewrite <- !snapshot_text.
    rewrite concatenate_inner_refines by done. apply pass_text.
  - rewrite <- !snapshot_text.
    rewrite resolve_dependency_refines by done. apply resolve_cells_text.
Qed.

Lemma resolve_preserves_text_witness :
  NoDup Examples.bracketed_chunks.1
  ∧ (∀ d, Heap.text
            (Budou._concatenate_inner Examples.bracketed_chunks.1 d
               Examples.bracketed_chunks.2).2
            (Budou._concatenate_inner Examples.bracketed_chunks.1 d
               Examples.bracketed_chunks.2).1
          = Heap.text Examples.bracketed_chunks.2 Examples.bracketed_chunks.1)
  ∧ Heap.text
      (Budou._resolve_dependency Examples.bracketed_chunks.1
         Examples.bracketed_chunks.2).2
      (Budou._resolve_dependency Examples.bracketed_chunks.1
         Examples.bracketed_chunks.2).1
    = Heap.text Examples.bracketed_chunks.2 Examples.bracketed_chunks.1.
Proof.
  assert (NoDup Examples.bracketed_chunks.1) as Hnd
    by (apply (bool_decide_unpack _); vm_compute; exact I).
  split; [exact Hnd|].
  exact (resolve_preserves_text _ _ Hnd).
Defined.

(** C7. Resolving the result of a resolution again returns the same chunk
    objects in the same order with the same word, pos, label and
    dependency. *)
Theorem resolve_idempotent cs h :
  NoDup cs →
  let r1 := Budou._resolve_dependency cs h in
  let r2 := Budou._resolve_dependency r1.1 r1.2 in
  r2.1 = r1.1 ∧ Heap.view r2.2 r2.1 = Heap.view r1.2 r1.1.
Proof.
  intros Hnd r1 r2.
  assert (NoDup r1.1) as Hnd1.
  { eapply sublist_NoDup; [exact Hnd|]. by apply resolve_dependency_sublist. }
  assert (Cells.snapshot r2.2 r2.1 = Cells.snapshot r1.2 r1.1) as Heq.
  { unfold r2. rewrite resolve_dependency_refines by done.
    unfold r1. rewrite resolve_dependency_refines by done.
    apply resolve_cells_idempotent. }
  split.
  - by rewrite <- (snapshot_fst r2.2 r2.1), Heq, snapshot_fst.
  - by rewrite <- !snapshot_snd, Heq.
Qed.

Lemma resolve_idempotent_witness :
  NoDup Examples.bracketed_chunks.1
  ∧ let r1 := Budou._resolve_dependency Examples.bracketed_chunks.1
                Examples.bracketed_chunks.2 in
    let r2 := Budou._resolve_dependency r1.1 r1.2 in
    r2.1 = r1.1 ∧ Heap.view r2.2 r2.1 = Heap.view r1.2 r1.1.
Proof.
  assert (NoDup Examples.bracketed_chunks.1) as Hnd
    by (apply (bool_decide_unpack _); vm_compute; exact I).
  split; [exact Hnd|].
  exact (resolve_idempotent _ _ Hnd).
Defined.

End Resolve.

(** ** Entity grouping *)

(** C1. Grouping ["Tokyo", <space>, "Tower"] by the entity "Tokyo Tower"
    at offset 0 succeeds and leaves exactly one chunk; its word is
    "Tokyo Tower", the space included, its pos, label and dependency are
    [None]. *)
Theorem group_tokyo_tower (category : N → string) :
  ∃ r h,
    Budou._group_chunks_by_entities category
      (Examples.tokyo_tower category).1 [Examples.tokyo_tower_entity]
      (Examples.tokyo_tower category).2 = Py.Ok ([r], h)
    ∧ Heap.get h r = Chunk.mk (Py.u "Tokyo Tower") None None None.
Proof. eexists _, _. split; by vm_compute. Qed.

(** C1, as stated, fails: the word of the merged chunk is not
    "TokyoTower". *)
Lemma group_tokyo_tower_keeps_space :
  ¬ ∃ r h,
    Budou._group_chunks_by_entities category_excerpt
      (Examples.tokyo_tower category_excerpt).1 [Examples.tokyo_tower_entity]
      (Examples.tokyo_tower category_excerpt).2 = Py.Ok ([r], h)
    ∧ Chunk.word (Heap.get h r) = Py.u "TokyoTower".
Proof.
  intros (r & h & Hrun & Hword).
  vm_compute in Hrun. injection Hrun as <- <-. by vm_compute in Hword.
Qed.

(** ** Chunk construction *)

(** C2. A chunk constructed with pos PUNCT over a single code point gets
    its dependency from the category of that code point, whatever
    dependency was passed to the constructor: [False] (concatenate to the
    previous word) when the category is neither Ps nor Pi, [True]
    (concatenate to the following word) when it is Ps or Pi. *)
Theorem punct_init_direction (category : N → string) (c : N)
    (label : option string) (dependency : option bool) :
  let chunk :=
    Chunk.__init__ category [c] (Some "PUNCT"%string) label dependency in
  Chunk.dependency chunk
  = Some (bool_decide (category c ∈ ["Ps"; "Pi"]%string))
  ∧ (category c ∉ ["Ps"; "Pi"]%string → Chunk.dependency chunk = Some false)
  ∧ (category c ∈ ["Ps"; "Pi"]%string → Chunk.dependency chunk = Some true).
Proof.
  intros chunk.
  assert (Chunk.dependency chunk
          = Some (bool_decide (category c ∈ ["Ps"; "Pi"]%string))) as Hdep
    by done.
  split_and!; [done| |]; intros Hcat; rewrite Hdep.
  - by rewrite bool_decide_eq_false_2.
  - by rewrite bool_decide_eq_true_2.
Qed.

Lemma punct_init_direction_witness :
  Chunk.dependency
    (Chunk.__init__ category_excerpt [41%N] (Some "PUNCT"%string) None
       (Some true))
  = Some false
  ∧ Chunk.dependency
      (Chunk.__init__ category_excerpt [40%N] (Some "PUNCT"%string) None
         (Some false))
    = Some true.
Proof.
  split.
  - apply (punct_init_direction category_excerpt 41 None (Some true)).
    apply (bool_decide_eq_false_1 (_ ∈ _)). vm_compute. reflexivity.
  - apply (punct_init_direction category_excerpt 40 None (Some false)).
    apply (bool_decide_unpack (_ ∈ _)). vm_compute. exact I.
Defined.

(** C2, as stated, fails: for the closing parenthesis (category Pe) the
    constructor does not keep the dependency it was passed. *)
Lemma punct_init_overwrites_passed_dependency :
  ¬ ∀ (category : N → string) (c : N) (label : option string)
      (dependency : option bool),
      category c ∈ ["Pc"; "Pd"; "Pe"; "Pf"; "Po"]%string →
      Chunk.dependency
        (Chunk.__init__ category [c] (Some "PUNCT"%string) label dependency)
      = dependency.
Proof.
  intros Hall.
  assert (Chunk.dependency
            (Chunk.__init__ category_excerpt [41%N] (Some "PUNCT"%string)
               None None) = None) as Hnone.
  { apply Hall. apply (bool_decide_unpack (_ ∈ _)). by vm_compute. }
  by vm_compute in Hnone.
Qed.

(** ** swap *)

Section Swap.

Implicit Types (self old : list ref) (r new : ref).

Lemma index_spec `{EqDecision A} (l : list A) (x : A) :
  match Py.index l x with
  | Py.Ok i => l !! i = Some x
  | Py.Raise e => e = Py.ValueError ∧ x ∉ l
  end.
Proof.
  induction l as [|y l IH]; simpl.
  - split; [done|]. apply not_elem_of_nil.
  - destruct (decide (y = x)) as [->|Hne]; [done|].
    destruct (Py.index l x) as [i|e]; simpl; [done|].
    destruct IH as [-> Hnotin]. split; [done|].
    rewrite elem_of_cons. by intros [->|?].
Qed.

Lemma index_Ok_elem_of `{EqDecision A} (l : list A) (x : A) i :
  Py.index l x = Py.Ok i → l !! i = Some x.
Proof. intros Hi. pose proof (index_spec l x) as Hs. by rewrite Hi in Hs. Qed.

Lemma comprehension_index_spec self old :
  match Py.comprehension (Py.index self) old with
  | Py.Ok indexes => Forall2 (λ r i, Py.index self r = Py.Ok i) old indexes
  | Py.Raise e => e = Py.ValueError ∧ ∃ r, r ∈ old ∧ r ∉ self
  end.
Proof.
  induction old as [|r old IH]; simpl; [constructor|].
  pose proof (index_spec self r) as Hr.
  destruct (Py.index self r) as [i|e] eqn:Hi; simpl.
  - destruct (Py.comprehension (Py.index self) old) as [indexes|e]; simpl.
    + by constructor.
    + destruct IH as [-> (r' & Hin & Hnotin)]. split; [done|].
      exists r'. split; [by apply elem_of_cons; right | done].
  - destruct Hr as [-> Hnotin]. split; [done|].
    exists r. split; [apply elem_of_cons; by left | done].
Qed.

Lemma getitem_first {A} (x : A) (l : list A) : Py.getitem (x :: l) 0 = Py.Ok x.
Proof. reflexivity. Qed.

Lemma getitem_last {A} (l : list A) :
  Py.getitem l (-1) =
  match last l with
  | Some x => Py.Ok x
  | None => Py.Raise Py.IndexError
  end.
Proof.
  unfold Py.getitem, Py.len. simpl. rewrite last_lookup.
  destruct l as [|x l]; [done|].
  replace (-1 + Z.of_nat (length (x :: l))) with (Z.of_nat (length l))
    by (simpl; lia).
  destruct (Z.ltb_spec (Z.of_nat (length l)) 0) as [?|_]; [lia|].
  rewrite Nat2Z.id. simpl.
  destruct ((x :: l) !! length l) eqn:Hlk; [done|].
  apply lookup_ge_None in Hlk. simpl in Hlk. lia.
Qed.

(** The three outcomes of [swap] and what each tells about the call. *)
Lemma swap_cases self old new :
  match ChunkList.swap self old new with
  | Py.Raise Py.ValueError => ∃ r, r ∈ old ∧ r ∉ self
  | Py.Raise Py.IndexError => old = []
  | Py.Ok self' =>
      (∀ r, r ∈ old → r ∈ self)
      ∧ ∃ o1 o2 i j,
          head old = Some o1 ∧ last old = Some o2
          ∧ Py.index self o1 = Py.Ok i
          ∧ Py.index self o2 = Py.Ok j
          ∧ self' = take i self ++ new :: drop (i `max` S j) self
  end.
Proof.
  unfold ChunkList.swap.
  pose proof (comprehension_index_spec self old) as Hidx.
  destruct (Py.comprehension (Py.index self) old) as [indexes|e]; simpl;
    [|by destruct Hidx as [-> ?]].
  destruct old as [|o1 old'].
  { apply Forall2_nil_inv_l in Hidx as ->.
    change (Py.getitem (@nil nat) 0) with (@Py.Raise nat Py.IndexError).
    by simpl. }
  apply Forall2_cons_inv_l in Hidx as (first & is' & Ho1 & Hrest & ->).
  rewrite getitem_first. simpl. rewrite getitem_last.
  assert (Forall2 (λ r i, Py.index self r = Py.Ok i) (o1 :: old') (first :: is'))
    as Hall by (by constructor).
  destruct (last (first :: is')) as [lst|] eqn:Hlast; simpl.
  2:{ rewrite last_lookup in Hlast. apply lookup_ge_None in Hlast.
      simpl in Hlast. lia. }
  split.
  - intros r Hr. apply list_elem_of_lookup in Hr as [k Hk].
    destruct (Forall2_lookup_l _ _ _ _ _ Hall Hk) as (i & _ & Hi).
    apply index_Ok_elem_of in Hi. by eapply list_elem_of_lookup_2.
  - rewrite last_lookup in Hlast.
    destruct (Forall2_lookup_r _ _ _ _ _ Hall Hlast) as (o2 & Ho2 & Hi2).
    exists o1, o2, first, lst. split_and!; [done| |done|done|].
    + rewrite last_lookup. by rewrite (Forall2_length _ _ _ Hall).
    + apply index_Ok_elem_of, lookup_lt_Some in Ho1.
      unfold Py.insert, Py.del_slice.
      rewrite take_app_length', drop_app_length'
        by (rewrite length_take_le; lia).
      by rewrite Nat.add_1_r.
Qed.

(** C3. [swap] raises exactly when one of the members of [old_chunks] is
    not in the list (ValueError) or [old_chunks] is empty (IndexError).
    When every member is present it completes, contiguous or not: the
    positions from the index of the first member through the index of the
    last member are removed and [new_chunk] is put at the index of the
    first member. *)
Theorem swap_outcome self old new :
  (ChunkList.swap self old new = Py.Raise Py.ValueError
   ↔ ∃ r, r ∈ old ∧ r ∉ self)
  ∧ (ChunkList.swap self old new = Py.Raise Py.IndexError ↔ old = [])
  ∧ (old ≠ [] → (∀ r, r ∈ old → r ∈ self) →
     ∃ o1 o2 i j,
       head old = Some o1 ∧ last old = Some o2
       ∧ Py.index self o1 = Py.Ok i
       ∧ Py.index self o2 = Py.Ok j
       ∧ ChunkList.swap self old new
         = Py.Ok (take i self ++ new :: drop (i `max` S j) self)).
Proof.
  pose proof (swap_cases self old new) as Hcases.
  destruct (ChunkList.swap self old new) as [self'|[|]].
  - destruct Hcases as (Hall & o1 & o2 & i & j & Ho1 & Ho2 & Hi & Hj & ->).
    split_and!.
    + split; [done|]. intros (r & Hin & Hnotin). exfalso.
      by apply Hnotin, Hall.
    + split; [done|]. intros ->. done.
    + intros _ _. by exists o1, o2, i, j.
  - subst old. split_and!.
    + split; [done|]. by intros (r & ?%elem_of_nil & _).
    + done.
    + done.
  - destruct Hcases as (r & Hin & Hnotin). split_and!.
    + split; [|done]. intros _. by exists r.
    + split; [done|]. intros ->. by apply elem_of_nil in Hin.
    + intros _ Hall. exfalso. by apply Hnotin, Hall.
Qed.

(** C3, as stated, fails: [1; 3] is not a contiguous run of [1; 2; 3],
    yet the call completes and has removed the chunk in between. *)
Lemma swap_noncontiguous_completes :
  (¬ ∃ pre post : list ref, [1; 2; 3]%nat = pre ++ [1; 3]%nat ++ post)
  ∧ ChunkList.swap [1; 2; 3]%nat [1; 3]%nat 7%nat = Py.Ok [7%nat].
Proof.
  split; [|reflexivity].
  intros (pre & post & Heq).
  destruct pre as [|a [|b [|c pre]]]; simplify_eq/=.
  destruct pre; simplify_eq/=.
Qed.

End Swap.

(** ** get_overlaps *)

Section Overlaps.

Import OverlapSpec.

Implicit Types (h : heap) (cs : list ref) (r : ref).

Lemma start_0 h cs : start h cs 0 = 0.
Proof. reflexivity. Qed.

Lemma start_S h r cs i :
  start h (r :: cs) (S i) = Py.len (Chunk.word (Heap.get h r)) + start h cs i.
Proof.
  unfold start, Heap.text, Heap.view, Py.join, Py.len. simpl.
  by rewrite length_app, Nat2Z.inj_add.
Qed.

(** On a non-empty word and a non-empty range the test of the loop is the
    intersection of the two ranges. *)
Lemma overlap_test_intersect (index lw offset length : Z) :
  0 < lw → 0 < length →
  (offset <? index + lw) && (index <? offset + length) = true
  ↔ ranges_intersect index (index + lw) offset (offset + length).
Proof.
  intros Hlw Hlen. rewrite andb_true_iff, !Z.ltb_lt. unfold ranges_intersect.
  split.
  - intros [? ?]. exists (Z.max index offset). lia.
  - intros (p & ? & ?). lia.
Qed.

Lemma overlaps_loop_spec h offset length cs index result :
  0 < length →
  Forall (λ r, Chunk.word (Heap.get h r) ≠ []) cs →
  ChunkList.overlaps_loop h offset length cs index result
  = result ++
    omap id (imap (λ i r,
      let s := index + start h cs i in
      if decide (ranges_intersect s (s + Py.len (Chunk.word (Heap.get h r)))
                   offset (offset + length))
      then Some r else None) cs).
Proof.
  intros Hlen Hne. revert index result.
  induction Hne as [|r cs Hr _ IH]; intros index result; simpl.
  - by rewrite app_nil_r.
  - rewrite IH. rewrite start_0, Z.add_0_r.
    assert (0 < Py.len (Chunk.word (Heap.get h r))) as Hlw.
    { unfold Py.len. destruct (Chunk.word (Heap.get h r)); [done|simpl; lia]. }
    pose proof (overlap_test_intersect index _ offset length Hlw Hlen) as Htest.
    assert (imap
              (λ i r0,
                 let s := index + Py.len (Chunk.word (Heap.get h r))
                          + start h cs i in
                 if decide (ranges_intersect s
                              (s + Py.len (Chunk.word (Heap.get h r0)))
                              offset (offset + length))
                 then Some r0 else None) cs
            = imap
                ((λ i r0,
                    let s := index + start h (r :: cs) i in
                    if decide (ranges_intersect s
                                 (s + Py.len (Chunk.word (Heap.get h r0)))
                                 offset (offset + length))
                    then Some r0 else None) ∘ S) cs) as ->.
    { apply imap_ext. intros i r0 _. simpl. rewrite start_S.
      by rewrite Z.add_assoc. }
    destruct ((offset <? index + Py.len (Chunk.word (Heap.get h r)))
              && (index <? offset + length)) eqn:Hc.
    + rewrite decide_True by (by apply Htest).
      simpl. by rewrite <- app_assoc.
    + rewrite decide_False; [done|].
      intros Hi. apply Htest in Hi. congruence.
Qed.

Lemma getitem_raises {A} (l : list A) i e :
  Py.getitem l i = Py.Raise e → e = Py.IndexError.
Proof.
  unfold Py.getitem. repeat case_match; congruence.
Qed.

(** C4. When [offset] indexes the concatenated text, [get_overlaps]
    returns, in list order, exactly the chunks whose range
    [[start, start + len(word))] intersects [[offset', offset' + length)],
    where [offset'] is [offset + 1] if the character at [offset] is a
    space and [offset] otherwise; when it does not, IndexError is raised.
    Words are non-empty and [length] is positive. *)
Theorem get_overlaps_spec h cs offset length :
  0 < length →
  Forall (λ r, Chunk.word (Heap.get h r) ≠ []) cs →
  match Py.getitem (Heap.text h cs) offset with
  | Py.Ok c =>
      ChunkList.get_overlaps h cs offset length
      = Py.Ok (overlapping h cs
                 (if decide (c = Py.SP) then offset + 1 else offset) length)
  | Py.Raise _ =>
      ChunkList.get_overlaps h cs offset length = Py.Raise Py.IndexError
  end.
Proof.
  intros Hlen Hne. unfold ChunkList.get_overlaps.
  destruct (Py.getitem (Heap.text h cs) offset) as [c|e] eqn:Hget; simpl.
  - rewrite overlaps_loop_spec by done. reflexivity.
  - by rewrite (getitem_raises _ _ _ Hget).
Qed.

Lemma get_overlaps_spec_witness :
  0 < 1
  ∧ Forall (λ r, Chunk.word (Heap.get (Examples.tokyo_tower category_excerpt).2 r) ≠ [])
      (Examples.tokyo_tower category_excerpt).1
  ∧ ChunkList.get_overlaps (Examples.tokyo_tower category_excerpt).2
      (Examples.tokyo_tower category_excerpt).1 5 1
    = Py.Ok (overlapping (Examples.tokyo_tower category_excerpt).2
               (Examples.tokyo_tower category_excerpt).1 6 1).
Proof.
  assert (Forall (λ r, Chunk.word (Heap.get (Examples.tokyo_tower category_excerpt).2 r) ≠ [])
            (Examples.tokyo_tower category_excerpt).1) as Hne.
  { apply (bool_decide_unpack _). vm_compute. exact I. }
  split; [lia|]. split; [exact Hne|].
  exact (get_overlaps_spec _ _ 5 1 ltac:(lia) Hne).
Defined.

(** C4, as stated, fails: in ["Tokyo", <space>, "Tower"] the range
    [[5, 6)] intersects the space chunk only, and [get_overlaps] returns
    the chunk "Tower". *)
Lemma get_overlaps_skips_space :
  overlapping (Examples.tokyo_tower category_excerpt).2
    (Examples.tokyo_tower category_excerpt).1 5 1 = [1%nat]
  ∧ ChunkList.get_overlaps (Examples.tokyo_tower category_excerpt).2
      (Examples.tokyo_tower category_excerpt).1 5 1 = Py.Ok [2%nat].
Proof. split; by vm_compute. Qed.

End Overlaps.

(** ** _get_source_chunks *)

Section SourceChunks.

Variable category : N → string.

Implicit Types (h : heap) (cs : list ref) (r : ref) (c : Chunk.t).

Lemma alloc_spec c h r h' :
  Heap.alloc c h = (r, h') →
  (r ∉ dom h) ∧ dom h' = {[r]} ∪ dom h ∧ Heap.get h' r = c
  ∧ ∀ r', r' ∈ dom h → Heap.get h' r' = Heap.get h r'.
Proof.
  unfold Heap.alloc. intros [= <- <-]. split_and!.
  - apply is_fresh.
  - apply dom_insert_L.
  - unfold Heap.get. apply lookup_total_insert_eq.
  - intros r' Hr'. unfold Heap.get. rewrite lookup_total_insert_ne; [done|].
    intros <-. by apply (is_fresh (dom h)).
Qed.

Lemma view_ext h h' cs :
  (∀ r, r ∈ cs → Heap.get h' r = Heap.get h r) →
  Heap.view h' cs = Heap.view h cs.
Proof.
  intros Hext. unfold Heap.view. apply Forall_fmap_ext_1, Forall_forall.
  intros r Hr. by apply Hext.
Qed.

Lemma live_alloc c h r h' cs :
  Heap.alloc c h = (r, h') → live h cs →
  live h' (cs ++ [r])
  ∧ Heap.view h' (cs ++ [r]) = Heap.view h cs ++ [c].
Proof.
  intros Halloc [Hnd Hdom].
  apply alloc_spec in Halloc as (Hfresh & Hdom' & Hget & Hold).
  split; [split|].
  - apply NoDup_app. split_and!; [done| |apply NoDup_singleton].
    intros r' Hr' ->%list_elem_of_singleton. by apply Hfresh, Hdom.
  - intros r' [Hr'| ->%list_elem_of_singleton]%elem_of_app; rewrite Hdom'.
    + apply elem_of_union_r. by apply Hdom.
    + apply elem_of_union_l. by apply elem_of_singleton.
  - unfold Heap.view at 1. rewrite fmap_app. simpl. rewrite Hget. f_equal.
    apply view_ext. intros r' Hr'. by apply Hold, Hdom.
Qed.

Lemma live_maybe_add_dependency h cs r d :
  live h (cs ++ [r]) →
  live (Heap.maybe_add_dependency r d h) (cs ++ [r])
  ∧ Heap.view (Heap.maybe_add_dependency r d h) (cs ++ [r])
    = Heap.view h cs ++ [Chunk.maybe_add_dependency (Heap.get h r) d].
Proof.
  intros [Hnd Hdom]. unfold Heap.maybe_add_dependency. split; [split|].
  - done.
  - intros r' Hr'. rewrite dom_insert_L. apply elem_of_union_r. by apply Hdom.
  - unfold Heap.view at 1. rewrite fmap_app. simpl.
    rewrite get_insert_eq. f_equal.
    apply view_ext. intros r' Hr'.
    rewrite get_insert_ne; [done|]. intros <-.
    apply NoDup_app in Hnd as (_ & Hdisj & _).
    apply (Hdisj _ Hr'). by apply list_elem_of_singleton.
Qed.

Lemma space_label : Chunk.label (Chunk.space category) = None.
Proof. reflexivity. Qed.

Lemma maybe_add_dependency_token_chunk i token :
  Chunk.maybe_add_dependency
    (Chunk.__init__ category (Budou.content token) (Some (Budou.tag token))
       (Some (Budou.dep_label token)) None)
    (Z.of_nat i <? Budou.headTokenIndex token)
  = SourceSpec.token_chunk category i token.
Proof.
  unfold SourceSpec.token_chunk, SourceSpec.direction.
  set (c := Chunk.__init__ _ _ _ _ _).
  assert (Chunk.word c = Budou.content token
          ∧ Chunk.pos c = Some (Budou.tag token)
          ∧ Chunk.label c = Some (Budou.dep_label token)) as (Hw & Hp & Hl).
  { unfold c, Chunk.__init__, Chunk._add_dependency_if_punct.
    repeat case_match; done. }
  unfold Chunk.maybe_add_dependency. rewrite Hl. simpl.
  destruct c as [w p lb [d|]]; simpl in *; subst; [done|].
  case_bool_decide; simpl; [|done].
  do 2 f_equal. destruct (Z.ltb_spec (Z.of_nat i) (Budou.headTokenIndex token)).
  - by rewrite bool_decide_eq_true_2.
  - rewrite bool_decide_eq_false_2; [done|lia].
Qed.

Lemma source_chunks_loop_spec i tokens cs sentence_length h :
  live h cs →
  let res := Budou.source_chunks_loop category i tokens cs sentence_length h in
  live res.2 res.1
  ∧ filter SourceSpec.of_token (Heap.view res.2 res.1)
    = filter SourceSpec.of_token (Heap.view h cs)
      ++ imap (λ k, SourceSpec.token_chunk category (i + k)) tokens.
Proof.
  revert i cs sentence_length h.
  induction tokens as [|token rest IH]; intros i cs sentence_length h Hlive;
    simpl.
  - by rewrite app_nil_r.
  - set (h_cs := if sentence_length <? Budou.beginOffset token
                 then _ else _).
    assert (∃ cs1 sl1 h1, h_cs = (cs1, sl1, h1) ∧ live h1 cs1
            ∧ filter SourceSpec.of_token (Heap.view h1 cs1)
              = filter SourceSpec.of_token (Heap.view h cs))
      as (cs1 & sl1 & h1 & -> & Hlive1 & Hview1).
    { unfold h_cs. destruct (sentence_length <? Budou.beginOffset token).
      - destruct (live_alloc (Chunk.space category) h _ _ cs eq_refl Hlive)
          as [Hl Hv].
        eexists _, _, _. split; [done|]. split; [done|].
        rewrite Hv, filter_app, filter_cons_False, filter_nil, app_nil_r;
          [done|].
        unfold SourceSpec.of_token. rewrite space_label. by intros [? ?].
      - by exists cs, sentence_length, h. }
    set (c0 := Chunk.__init__ category (Budou.content token)
                 (Some (Budou.tag token)) (Some (Budou.dep_label token)) None).
    pose proof (eq_refl : Heap.alloc c0 h1 = (fresh (dom h1), <[fresh (dom h1) := c0]> h1))
      as Hchunk.
    set (chunk := fresh (dom h1)) in *. set (h2 := <[chunk := c0]> h1) in *.
    destruct (live_alloc _ _ _ _ _ Hchunk Hlive1) as [Hlive2 Hview2].
    destruct (live_maybe_add_dependency h2 cs1 chunk
                (Z.of_nat i <? Budou.headTokenIndex token) Hlive2)
      as [Hlive3 Hview3].
    destruct (IH (S i) _ (sl1 + Py.len (Budou.content token)) _ Hlive3)
      as [Hlive' Hfilter'].
    split; [done|]. rewrite Hfilter', Hview3.
    assert (Heap.get h2 chunk = c0) as ->.
    { by apply alloc_spec in Hchunk as (_ & _ & ? & _). }
    unfold c0.
    rewrite maybe_add_dependency_token_chunk.
    rewrite filter_app, filter_cons_True, filter_nil by (by eexists).
    rewrite (view_ext h1 h2 cs1), Hview1.
    + rewrite <- app_assoc. simpl. rewrite Nat.add_0_r. do 2 f_equal.
      apply imap_ext. intros k ? _. simpl. f_equal. lia.
    + intros r Hr. apply alloc_spec in Hchunk as (_ & _ & _ & Hold).
      apply Hold. by apply Hlive1.
Qed.

(** C8. The chunks that [_get_source_chunks] builds for the tokens are, in
    order, the chunks of [SourceSpec.token_chunk]: a token whose
    dependency is still unset after construction gets the default
    direction (forward when its head index is greater than its position,
    backward otherwise) when its label is one of [DEPENDENT_LABEL], and
    stays unset when it is not. *)
Theorem source_chunks_default_direction tokens h :
  let res := Budou._get_source_chunks category tokens h in
  filter SourceSpec.of_token (Heap.view res.2 res.1)
  = imap (SourceSpec.token_chunk category) tokens.
Proof.
  unfold Budou._get_source_chunks.
  destruct (source_chunks_loop_spec 0 tokens [] 0 h) as [_ Hfilter].
  { split; [constructor | by intros r ?%elem_of_nil]. }
  simpl. by rewrite Hfilter.
Qed.

End SourceChunks.

(** C8, as stated, fails: the token "apples" of "3 apples" has label ROOT,
    its dependency is unset after construction, its head index 1 is not
    greater than its position 1, and its dependency stays unset instead of
    becoming backward. *)
Lemma unset_direction_survives :
  Chunk.dependency
    (Chunk.__init__ category_excerpt (Py.u "apples") (Some "NOUN"%string)
       (Some "ROOT"%string) None) = None
  ∧ Chunk.dependency <$>
      Heap.view (Budou._get_source_chunks category_excerpt
                   Examples.three_apples ∅).2
                (Budou._get_source_chunks category_excerpt
                   Examples.three_apples ∅).1
    = [Some true; None; None].
Proof. split; by vm_compute. Qed.

(** ** _html_serialize *)

Section Serialize.

Import SerializeSpec.

Variable attrib_ok : string → string → bool.

Implicit Types (h : heap) (cs : list ref) (attributes : gmap string string).

Lemma set_attrib_commute k1 v1 k2 v2 e :
  k1 ≠ k2 →
  Etree.set_attrib k1 v1 (Etree.set_attrib k2 v2 e)
  = Etree.set_attrib k2 v2 (Etree.set_attrib k1 v1 e).
Proof.
  intros Hne. unfold Etree.set_attrib. simpl. f_equal.
  by apply insert_insert_ne.
Qed.

Lemma attributes_ok_insert k v attributes :
  attributes !! k = None →
  attributes_ok attrib_ok (<[k := v]> attributes)
  = attrib_ok k v && attributes_ok attrib_ok attributes.
Proof.
  intros Hk. unfold attributes_ok.
  destruct (attrib_ok k v) eqn:Hkv; simpl.
  - apply bool_decide_ext. rewrite map_Forall_insert by done. tauto.
  - apply bool_decide_eq_false_2. rewrite map_Forall_insert by done.
    intros [Hok _]. congruence.
Qed.

Lemma attributes_ok_empty : attributes_ok attrib_ok ∅ = true.
Proof. apply bool_decide_eq_true_2, map_Forall_empty. Qed.

(** Copying the attribute mapping onto an element adds every one of its
    key/value pairs when lxml accepts them all, and raises ValueError when
    it refuses one. *)
Lemma copy_attributes_spec attributes ele :
  Budou.copy_attributes attrib_ok attributes ele
  = if attributes_ok attrib_ok attributes
    then Py.Ok (Etree.mk (Etree.tag ele) (attributes ∪ Etree.attrib ele)
                  (Etree.text ele) (Etree.children ele) (Etree.tail ele))
    else Py.Raise Py.ValueError.
Proof.
  unfold Budou.copy_attributes.
  induction attributes as [|k v m Hk IH] using map_ind.
  - rewrite map_fold_empty, attributes_ok_empty, (left_id_L ∅ (∪)).
    by destruct ele.
  - rewrite map_fold_insert_L; [| |done].
    + rewrite IH, attributes_ok_insert by done.
      unfold Etree.assign_attrib.
      destruct (attributes_ok attrib_ok m); simpl.
      * destruct (attrib_ok k v); [|done]. simpl.
        unfold Etree.set_attrib. simpl. do 2 f_equal.
        by rewrite insert_union_l.
      * by rewrite andb_false_r.
    + intros j1 j2 z1 z2 [e|e] Hne _ _; simpl; [|done].
      unfold Etree.assign_attrib.
      destruct (attrib_ok j1 z1), (attrib_ok j2 z2); simpl; try done.
      by rewrite set_attrib_commute.
Qed.

Lemma new_chunk_element attributes (c : Chunk.t) :
  Etree.mk "span" (attributes ∪ ∅) (Some (Chunk.word c)) [] None
  = element attributes c false.
Proof. unfold element. by rewrite (right_id_L ∅ (∪)). Qed.

Lemma mark_marked children (vs : list Chunk.t) :
  mark (alter (λ e, Etree.set_tail e (Py.u " ")) (length children - 1)%nat children) vs
  = alter (λ e, Etree.set_tail e (Py.u " ")) (length children - 1)%nat children.
Proof.
  unfold mark. destruct (space_follows vs); [|done].
  rewrite length_alter, list_alter_alter_eq.
  by apply list_alter_ext.
Qed.

Lemma mark_snoc children attributes (c : Chunk.t) (vs : list Chunk.t) :
  mark (children ++ [element attributes c false]) vs
  = children ++ [element attributes c (space_follows vs)].
Proof.
  unfold mark. destruct (space_follows vs); [|done].
  rewrite length_app. simpl.
  replace (length children + 1 - 1)%nat with (length children + 0)%nat by lia.
  by rewrite alter_app_r.
Qed.

(** The loop raises ValueError at the first chunk that is not [accepted];
    when there is none it extends [doc] by the elements of the chunks. *)
Lemma serialize_loop_spec h attributes cs doc :
  Budou.serialize_loop attrib_ok h attributes cs doc
  = if forallb (accepted attrib_ok attributes) (Heap.view h cs)
    then Py.Ok (Etree.mk (Etree.tag doc) (Etree.attrib doc) (Etree.text doc)
                  (mark (Etree.children doc) (Heap.view h cs)
                   ++ elements attributes (Heap.view h cs))
                  (Etree.tail doc))
    else Py.Raise Py.ValueError.
Proof.
  revert doc. induction cs as [|chunk rest IH]; intros doc.
  - simpl. unfold mark. simpl. rewrite app_nil_r. by destruct doc.
  - cbn [Budou.serialize_loop Heap.view fmap list_fmap forallb elements].
    fold (Heap.view h rest). unfold accepted at 1.
    destruct (Chunk.is_space (Heap.get h chunk)) eqn:Hsp;
      cbn [orb andb].
    + destruct (Etree.children doc) as [|k ks] eqn:Hkids.
      * rewrite IH, Hkids.
        destruct (forallb _ _); [|done]. do 2 f_equal.
        unfold mark. cbn [space_follows]. rewrite Hsp.
        by destruct (space_follows _).
      * rewrite IH. cbn [Etree.set_last_child_tail Etree.tag Etree.attrib
                         Etree.text Etree.children Etree.tail].
        rewrite Hkids.
        destruct (forallb _ _); [|done]. do 2 f_equal.
        rewrite mark_marked. unfold mark. cbn [space_follows].
        by rewrite Hsp.
    + unfold Etree.assign_text.
      destruct (Etree.xml_compatible (Chunk.word (Heap.get h chunk)));
        cbn [Py.bind andb]; [|done].
      rewrite copy_attributes_spec.
      destruct (attributes_ok attrib_ok attributes); cbn [Py.bind]; [|done].
      rewrite IH.
      destruct (forallb _ _); [|done]. do 2 f_equal.
      cbn [Etree.append Etree.new Etree.set_text Etree.tag Etree.attrib
           Etree.text Etree.children Etree.tail].
      rewrite new_chunk_element, mark_snoc.
      unfold mark. cbn [space_follows]. rewrite Hsp.
      by rewrite <- app_assoc.
Qed.

Lemma html_doc_spec h cs attributes :
  Budou.html_doc attrib_ok h cs attributes
  = if forallb (accepted attrib_ok attributes) (Heap.view h cs)
    then Py.Ok (Etree.mk "span" ∅ None
                  (elements attributes (Heap.view h cs)) None)
    else Py.Raise Py.ValueError.
Proof.
  unfold Budou.html_doc. rewrite serialize_loop_spec.
  destruct (forallb _ _); [|done]. simpl. do 2 f_equal.
  unfold mark. by destruct (space_follows _).
Qed.

Lemma html_serialize_spec (tostring : Etree.Element → Py.unicode)
    (clean_html : Py.unicode → Py.unicode) h cs attributes :
  Budou._html_serialize attrib_ok tostring clean_html h cs attributes
  = if forallb (accepted attrib_ok attributes) (Heap.view h cs)
    then Py.Ok (clean_html
                  (tostring
                     (Etree.mk "span" ∅ None
                        (elements attributes (Heap.view h cs)) None)))
    else Py.Raise Py.ValueError.
Proof.
  unfold Budou._html_serialize. rewrite html_doc_spec.
  by destruct (forallb _ _).
Qed.

Lemma elements_text attributes (vs : list Chunk.t) :
  Etree.text <$> elements attributes vs
  = (λ c, Some (Chunk.word c)) <$> filter (λ c, Chunk.is_space c = false) vs.
Proof.
  induction vs as [|c vs IH]; [done|]. cbn [elements].
  destruct (Chunk.is_space c) eqn:Hsp.
  - by rewrite filter_cons_False by congruence.
  - rewrite filter_cons_True by done. rewrite !fmap_cons. by f_equal.
Qed.

Lemma elements_attrib attributes (vs : list Chunk.t) :
  Forall (λ e, Etree.tag e = "span"%string ∧ Etree.attrib e = attributes
               ∧ Etree.children e = [])
    (elements attributes vs).
Proof.
  induction vs as [|c vs IH]; simpl; [constructor|].
  destruct (Chunk.is_space c); [done|]. by constructor.
Qed.

Lemma accepted_false attributes (c : Chunk.t) :
  accepted attrib_ok attributes c = false
  ↔ Chunk.is_space c = false
    ∧ (Etree.xml_compatible (Chunk.word c) = false
       ∨ attributes_ok attrib_ok attributes = false).
Proof.
  unfold accepted.
  destruct (Chunk.is_space c), (Etree.xml_compatible (Chunk.word c)),
    (attributes_ok attrib_ok attributes); simpl; intuition congruence.
Qed.

(** C9. [_html_serialize] raises ValueError exactly when some non-space
    chunk has a word that is not XML compatible, or there is a non-space
    chunk and lxml refuses an attribute.  Otherwise it returns
    [clean_html (tostring doc)] for the document [doc] that the loop has
    built: a [span] without attributes whose children are the elements of
    the specification, one [span] per non-space chunk, in list order, whose
    text is the word of the chunk and whose attributes are exactly the
    attribute mapping; a space chunk gives no element, sets the tail of
    the element emitted just before it to one space, and is dropped when
    no element has been emitted yet. *)
Theorem html_serialize_elements (tostring : Etree.Element → Py.unicode)
    (clean_html : Py.unicode → Py.unicode) h cs attributes :
  let chunks := Heap.view h cs in
  let children := elements attributes chunks in
  let doc := Etree.mk "span" ∅ None children None in
  match Budou._html_serialize attrib_ok tostring clean_html h cs attributes with
  | Py.Ok result =>
      Budou.html_doc attrib_ok h cs attributes = Py.Ok doc
      ∧ result = clean_html (tostring doc)
      ∧ Etree.text <$> children
        = (λ c, Some (Chunk.word c))
            <$> filter (λ c, Chunk.is_space c = false) chunks
      ∧ Forall (λ e, Etree.tag e = "span"%string ∧ Etree.attrib e = attributes
                     ∧ Etree.children e = []) children
      ∧ Forall (λ c, Chunk.is_space c = false →
                     Etree.xml_compatible (Chunk.word c) = true
                     ∧ attributes_ok attrib_ok attributes = true) chunks
  | Py.Raise e =>
      e = Py.ValueError
      ∧ Budou.html_doc attrib_ok h cs attributes = Py.Raise Py.ValueError
      ∧ Exists (λ c, Chunk.is_space c = false
                     ∧ (Etree.xml_compatible (Chunk.word c) = false
                        ∨ attributes_ok attrib_ok attributes = false)) chunks
  end.
Proof.
  intros chunks children doc.
  rewrite html_serialize_spec, html_doc_spec. fold chunks.
  destruct (forallb (accepted attrib_ok attributes) chunks) eqn:Hall.
  - split_and!; [done|done|apply elements_text|apply elements_attrib|].
    apply Forall_forall. intros c Hin%list_elem_of_In Hsp.
    apply (proj1 (forallb_forall _ _) Hall) in Hin.
    unfold accepted in Hin. rewrite Hsp in Hin. simpl in Hin.
    by apply andb_true_iff in Hin.
  - split_and!; [done|done|].
    apply Exists_exists.
    destruct (decide (Exists (λ c, accepted attrib_ok attributes c = false) chunks))
      as [Hex|Hnex].
    + apply Exists_exists in Hex as (c & Hin & Hc).
      exists c. split; [done|]. by apply accepted_false.
    + rewrite (proj2 (forallb_forall _ _)) in Hall; [done|].
      intros c Hin%list_elem_of_In.
      destruct (accepted attrib_ok attributes c) eqn:Hc; [done|].
      exfalso. apply Hnex, Exists_exists. by exists c.
Qed.

End Serialize.

(** C9, as stated, fails: the resolved chunks of the text "a\x01b c" of the
    space-delimited path are the two non-space chunks "a\x01b " and "c",
    and the serializer emits no element for them: whatever lxml accepts as
    attributes, it returns nothing (the assignment of the first word as
    text raises ValueError). *)
Lemma serialize_control_character_raises :
  let res :=
    Budou._get_chunks_per_space category_excerpt isspace_table
      Examples.control_text ∅ in
  let resolved := Budou._resolve_dependency res.1 res.2 in
  Chunk.word <$> Heap.view resolved.2 resolved.1
  = [[97; 1; 98; 32]%N; Py.u "c"]
  ∧ Chunk.is_space <$> Heap.view resolved.2 resolved.1 = [false; false]
  ∧ ¬ ∃ attrib_ok tostring clean_html result,
        Budou._html_serialize attrib_ok tostring clean_html
          resolved.2 resolved.1 {[ "class"%string := "ww"%string ]}
        = Py.Ok result.
Proof.
  split; [by vm_compute|]. split; [by vm_compute|].
  intros (attrib_ok & tostring & clean_html & result & Hrun).
  vm_compute in Hrun. discriminate Hrun.
Qed.

(** ** Space chunks *)

(** C5. On the annotation of "3 apples" the pipeline returns a chunk for
    which [is_space] holds and whose word is "3 ", not a single space: the
    forward pass ends the run of the numeral in the space chunk.  The
    serializer, which renders a space chunk as a bare space, then builds a
    document that holds the noun only, whenever lxml accepts the default
    class attribute. *)
Theorem space_chunk_absorbs_forward_run :
  ∃ cs h c rest,
    Budou._get_chunks_with_api category_excerpt Examples.three_apples None ∅
      = Py.Ok (cs, h)
    ∧ Heap.view h cs = c :: rest
    ∧ Chunk.is_space c = true
    ∧ Chunk.word c = Py.u "3 "
    ∧ Chunk.word c ≠ Py.u " "
    ∧ ∀ attrib_ok : string → string → bool,
        attrib_ok "class" "ww" = true →
        ∃ doc,
          Budou.html_doc attrib_ok h cs
            (Budou._get_attribute_dict Budou.AttrNone None) = Py.Ok doc
          ∧ Etree.text <$> Etree.children doc = [Some (Py.u "apples")].
Proof.
  eexists _, _, _, _. split; [by vm_compute|].
  split; [by vm_compute|].
  split; [by vm_compute|]. split; [by vm_compute|]. split; [by vm_compute|].
  intros attrib_ok Hok.
  set (attributes := Budou._get_attribute_dict Budou.AttrNone None).
  assert (SerializeSpec.attributes_ok attrib_ok attributes = true) as Haok.
  { apply bool_decide_eq_true_2. unfold attributes, Budou._get_attribute_dict,
      Budou.setdefault. rewrite lookup_empty.
    apply map_Forall_insert; [done|]. split; [done|apply map_Forall_empty]. }
  eexists. split.
  - rewrite html_doc_spec.
    set (v := Heap.view _ _). vm_compute in v. subst v.
    cbn [forallb]. unfold SerializeSpec.accepted. rewrite Haok. reflexivity.
  - reflexivity.
Qed.

(** ** The chunk lists of the pipeline hold distinct objects *)

Section Live.

Variable category : N → string.

Implicit Types (h : heap) (cs self old : list ref) (r new : ref).

Lemma source_chunks_live tokens h :
  live (Budou._get_source_chunks category tokens h).2
       (Budou._get_source_chunks category tokens h).1.
Proof.
  unfold Budou._get_source_chunks.
  destruct (source_chunks_loop_spec category 0 tokens [] 0 h) as [Hlive _];
    [|done].
  split; [constructor | by intros r ?%elem_of_nil].
Qed.

Lemma swap_live h self old new self' (c : Chunk.t) :
  live h self → new ∉ dom h →
  ChunkList.swap self old new = Py.Ok self' →
  live (<[new := c]> h) self'.
Proof.
  intros [Hnd Hdom] Hnew Hswap.
  pose proof (swap_cases self old new) as Hout. rewrite Hswap in Hout.
  destruct Hout as (_ & o1 & o2 & i & j & _ & _ & _ & _ & ->).
  assert (take i self ++ drop (i `max` S j) self `sublist_of` self) as Hsub.
  { rewrite <- (take_drop i self) at 3. apply sublist_app; [done|].
    replace (i `max` S j)%nat with (i + (i `max` S j - i))%nat by lia.
    rewrite <- drop_drop. apply sublist_drop. }
  split.
  - rewrite <- Permutation_middle. apply NoDup_cons. split.
    + intros Hin. apply Hnew, Hdom. by eapply sublist_subseteq.
    + by eapply sublist_NoDup.
  - intros r Hr. rewrite dom_insert_L.
    apply elem_of_app in Hr as [Hr|[->|Hr]%elem_of_cons].
    + apply elem_of_union_r, Hdom. eapply sublist_subseteq; [exact Hsub|].
      apply elem_of_app. by left.
    + apply elem_of_union_l. by apply elem_of_singleton.
    + apply elem_of_union_r, Hdom. eapply sublist_subseteq; [exact Hsub|].
      apply elem_of_app. by right.
Qed.

Lemma group_chunks_live entities cs h cs' h' :
  live h cs →
  Budou._group_chunks_by_entities category cs entities h = Py.Ok (cs', h') →
  live h' cs'.
Proof.
  revert cs h. induction entities as [|entity rest IH]; intros cs h Hlive; simpl.
  - by intros [= <- <-].
  - destruct (ChunkList.get_overlaps h cs _ _) as [[|o old]|e]; simpl;
      [by apply IH| |done].
    destruct (ChunkList.swap cs (o :: old) (fresh (dom h))) as [cs1|e] eqn:Hswap;
      simpl; [|done].
    apply IH. eapply swap_live; [exact Hlive|apply is_fresh|exact Hswap].
Qed.

End Live.

(** ** swap on a contiguous run *)

Section SwapContiguous.

Implicit Types (self old pre post : list ref) (new : ref).

(** Under the documented precondition (the old chunks are consecutive in
    the list) [swap] replaces exactly that run by the new chunk. *)
Lemma swap_contiguous pre old post new :
  NoDup (pre ++ old ++ post) → old ≠ [] →
  ChunkList.swap (pre ++ old ++ post) old new = Py.Ok (pre ++ new :: post).
Proof.
  intros Hnd Hne.
  pose proof (swap_cases (pre ++ old ++ post) old new) as Hout.
  destruct (ChunkList.swap (pre ++ old ++ post) old new) as [self'|[|]].
  - destruct Hout as (_ & o1 & o2 & i & j & Ho1 & Ho2 & Hi & Hj & ->).
    apply index_Ok_elem_of in Hi, Hj.
    assert (i = length pre) as ->.
    { eapply NoDup_lookup; [exact Hnd|exact Hi|].
      rewrite lookup_app_r, Nat.sub_diag by lia.
      rewrite lookup_app_l by (destruct old; [done|simpl; lia]).
      by rewrite <- head_lookup. }
    assert (S j = (length pre + length old)%nat) as ->.
    { assert (j = (length pre + pred (length old))%nat) as ->.
      - eapply NoDup_lookup; [exact Hnd|exact Hj|].
        rewrite lookup_app_r by lia.
        replace (length pre + pred (length old) - length pre)%nat
          with (pred (length old)) by lia.
        rewrite lookup_app_l by (destruct old; [done|simpl; lia]).
        by rewrite <- last_lookup.
      - destruct old; [done|simpl; lia]. }
    rewrite take_app_length. f_equal. f_equal.
    rewrite Nat.max_r by lia.
    rewrite drop_app_ge by lia.
    replace (length pre + length old - length pre)%nat with (length old) by lia.
    by rewrite drop_app_length.
  - done.
  - destruct Hout as (r & Hin & Hnotin). exfalso. apply Hnotin.
    apply elem_of_app. right. apply elem_of_app. by left.
Qed.

End SwapContiguous.

(** ** _get_attribute_dict *)

Lemma setdefault_lookup k v (d : gmap string string) :
  is_Some (Budou.setdefault k v d !! k).
Proof.
  unfold Budou.setdefault. destruct (d !! k) eqn:Hk.
  - by rewrite Hk.
  - rewrite lookup_insert_eq. by eexists.
Qed.

(** The attribute dictionary handed to the serializer always has a
    [class] key. *)
Lemma get_attribute_dict_class attributes classname :
  is_Some (Budou._get_attribute_dict attributes classname !! "class"%string).
Proof.
  unfold Budou._get_attribute_dict.
  destruct attributes as [|[|a s]|d]; try apply setdefault_lookup.
  rewrite lookup_singleton_eq. by eexists.
Qed.

(** * Further properties of the code *)

(** ** Chunk construction and default directions *)

Section ChunkFacts.

Variable category : N → string.

Implicit Types (c : Chunk.t) (w : Py.unicode).

Lemma init_word w pos label dep :
  Chunk.word (Chunk.__init__ category w pos label dep) = w.
Proof.
  unfold Chunk.__init__, Chunk._add_dependency_if_punct.
  by repeat case_match.
Qed.

(** X1. Construction never changes the word, pos or label it was given.
    It assigns the dependency only for pos PUNCT over a single code point
    (forward exactly for the categories Ps and Pi); in every other case,
    a word of another length included, the dependency passed in is
    kept. *)
Theorem init_fields w pos label dep :
  let c := Chunk.__init__ category w pos label dep in
  Chunk.word c = w ∧ Chunk.pos c = pos ∧ Chunk.label c = label
  ∧ (pos ≠ Some "PUNCT"%string ∨ length w ≠ 1%nat → Chunk.dependency c = dep)
  ∧ (∀ p, pos = Some "PUNCT"%string → w = [p] →
       Chunk.dependency c = Some (bool_decide (category p ∈ ["Ps"; "Pi"]%string))).
Proof.
  unfold Chunk.__init__, Chunk._add_dependency_if_punct. simpl.
  destruct (decide (pos = Some "PUNCT"%string)) as [Hp|Hp].
  - destruct w as [|p [|q w]]; simpl; split_and!; try done.
    + intros [?|?]; done.
    + intros p' _ [= ->]. done.
  - split_and!; try done.
Qed.

(** X2. [maybe_add_dependency] never changes word, pos or label, never
    replaces a dependency that is already assigned, and of two calls in a
    row only the first has an effect. *)
Theorem maybe_add_dependency_first_wins c d1 d2 :
  let c1 := Chunk.maybe_add_dependency c d1 in
  Chunk.word c1 = Chunk.word c ∧ Chunk.pos c1 = Chunk.pos c
  ∧ Chunk.label c1 = Chunk.label c
  ∧ (∀ d, Chunk.dependency c = Some d → c1 = c)
  ∧ Chunk.maybe_add_dependency c1 d2 = c1.
Proof.
  unfold Chunk.maybe_add_dependency.
  destruct c as [w p l [d|]]; simpl; [done|].
  destruct (Chunk.in_DEPENDENT_LABEL l) eqn:Hl; simpl; [|by rewrite Hl].
  done.
Qed.

End ChunkFacts.

(** ** The attribute dictionary *)

(** X3. The dictionary returned by [_get_attribute_dict] always has a
    [class] key.  Every entry of a dictionary argument is kept as it
    is, the [class] entry included, and besides [class] nothing is
    added; a non-empty string argument gives the dictionary with that
    class alone, whatever [classname] is. *)
Theorem get_attribute_dict_entries attributes classname :
  let d := Budou._get_attribute_dict attributes classname in
  is_Some (d !! "class"%string)
  ∧ match attributes with
    | Budou.AttrDict a =>
        (∀ k v, a !! k = Some v → d !! k = Some v)
        ∧ (∀ k, k ≠ "class"%string → d !! k = a !! k)
    | Budou.AttrStr (String x s) => d = {[ "class"%string := String x s ]}
    | _ => ∀ k, k ≠ "class"%string → d !! k = None
    end.
Proof.
  split; [apply get_attribute_dict_class|].
  unfold Budou._get_attribute_dict, Budou.setdefault.
  destruct attributes as [|[|x s]|a]; simpl.
  - intros k Hk. rewrite lookup_empty. by rewrite lookup_insert_ne.
  - intros k Hk. rewrite lookup_empty. by rewrite lookup_insert_ne.
  - done.
  - destruct (a !! "class"%string) eqn:Hclass; split; try done.
    + intros k v Hkv. destruct (decide (k = "class"%string)) as [->|Hne].
      * congruence.
      * by rewrite lookup_insert_ne.
    + intros k Hk. by rewrite lookup_insert_ne.
Qed.

(** ** get_overlaps: bounds and contiguity *)

Section OverlapsRun.

Implicit Types (h : heap) (cs : list ref) (r : ref).

Lemma getitem_Ok_iff {A} (l : list A) (i : Z) :
  (∃ x, Py.getitem l i = Py.Ok x) ↔ - Py.len l ≤ i < Py.len l.
Proof.
  unfold Py.getitem, Py.len.
  destruct (Z.ltb_spec i 0) as [Hneg|Hpos].
  - destruct (Z.ltb_spec (i + Z.of_nat (length l)) 0) as [Hlow|Hin].
    + split; [by intros [? ?]|lia].
    + destruct (l !! Z.to_nat (i + Z.of_nat (length l))) eqn:Hlk.
      * split; [lia|by eexists].
      * apply lookup_ge_None in Hlk. lia.
  - destruct (Z.ltb_spec i 0) as [?|_]; [lia|].
    destruct (l !! Z.to_nat i) eqn:Hlk.
    + apply lookup_lt_Some in Hlk. split; [lia|by eexists].
    + apply lookup_ge_None in Hlk. split; [by intros [? ?]|lia].
Qed.

(** Past the end of the range nothing is selected any more. *)
Lemma overlaps_loop_past h offset length cs index result :
  offset + length ≤ index →
  ChunkList.overlaps_loop h offset length cs index result = result.
Proof.
  revert index result. induction cs as [|r cs IH]; intros index result Hpast;
    simpl; [done|].
  destruct (Z.ltb_spec index (offset + length)) as [?|_]; [lia|].
  rewrite andb_false_r. apply IH. unfold Py.len. lia.
Qed.

(** Once a chunk ends after [offset], the selected chunks are a prefix of
    what is left. *)
Lemma overlaps_loop_prefix h offset length cs index result :
  offset < index →
  ∃ sel post,
    cs = sel ++ post
    ∧ ChunkList.overlaps_loop h offset length cs index result = result ++ sel.
Proof.
  revert index result. induction cs as [|r cs IH]; intros index result Hin;
    simpl.
  - exists [], []. split; [done|by rewrite app_nil_r].
  - destruct (Z.ltb_spec offset (index + Py.len (Chunk.word (Heap.get h r))))
      as [_|?]; [|(unfold Py.len in *; lia)].
    destruct (Z.ltb_spec index (offset + length)) as [Hb|Hb]; simpl.
    + destruct (IH (index + Py.len (Chunk.word (Heap.get h r)))
                  (result ++ [r])) as (sel & post & -> & ->).
      { unfold Py.len; lia. }
      exists (r :: sel), post. by rewrite <- app_assoc.
    + exists [], (r :: cs). rewrite app_nil_r. split; [done|].
      apply overlaps_loop_past. unfold Py.len. lia.
Qed.

Lemma overlaps_loop_contiguous h offset length cs index result :
  ∃ pre sel post,
    cs = pre ++ sel ++ post
    ∧ ChunkList.overlaps_loop h offset length cs index result = result ++ sel.
Proof.
  revert index result. induction cs as [|r cs IH]; intros index result; simpl.
  - exists [], [], []. split; [done|by rewrite app_nil_r].
  - destruct (Z.ltb_spec offset (index + Py.len (Chunk.word (Heap.get h r))))
      as [Ha|Ha]; simpl.
    + destruct (Z.ltb_spec index (offset + length)) as [Hb|Hb]; simpl.
      * destruct (overlaps_loop_prefix h offset length cs
                    (index + Py.len (Chunk.word (Heap.get h r)))
                    (result ++ [r]) Ha) as (sel & post & -> & ->).
        exists [], (r :: sel), post. by rewrite <- app_assoc.
      * exists [], [], (r :: cs). rewrite app_nil_r. split; [done|].
        apply overlaps_loop_past. unfold Py.len. lia.
    + destruct (IH (index + Py.len (Chunk.word (Heap.get h r))) result)
        as (pre & sel & post & -> & ->).
      by exists (r :: pre), sel, post.
Qed.

Lemma get_overlaps_run h cs offset length sel :
  ChunkList.get_overlaps h cs offset length = Py.Ok sel →
  ∃ pre post, cs = pre ++ sel ++ post.
Proof.
  unfold ChunkList.get_overlaps.
  destruct (Py.getitem (Heap.text h cs) offset) as [c|e]; simpl; [|done].
  intros [= <-].
  destruct (overlaps_loop_contiguous h
              (if decide (c = Py.SP) then offset + 1 else offset)
              length cs 0 []) as (pre & sel & post & Hcs & ->).
  by exists pre, post.
Qed.

Lemma get_overlaps_raises h cs offset length :
  match ChunkList.get_overlaps h cs offset length with
  | Py.Ok _ => - Py.len (Heap.text h cs) ≤ offset < Py.len (Heap.text h cs)
  | Py.Raise e =>
      e = Py.IndexError
      ∧ ¬ (- Py.len (Heap.text h cs) ≤ offset < Py.len (Heap.text h cs))
  end.
Proof.
  unfold ChunkList.get_overlaps.
  pose proof (getitem_Ok_iff (Heap.text h cs) offset) as Hiff.
  destruct (Py.getitem (Heap.text h cs) offset) as [c|e] eqn:Hget; simpl.
  - apply Hiff. by eexists.
  - split; [by eapply getitem_raises|].
    intros Hin. apply Hiff in Hin as [x Hx]. congruence.
Qed.

(** X4. The chunks that [get_overlaps] returns are consecutive in the
    list: they form one contiguous run of it, in list order, for every
    offset and length and whatever the words are. *)
Theorem get_overlaps_contiguous h cs offset length sel :
  ChunkList.get_overlaps h cs offset length = Py.Ok sel →
  ∃ pre post, cs = pre ++ sel ++ post.
Proof. apply get_overlaps_run. Qed.

Lemma get_overlaps_contiguous_witness :
  ChunkList.get_overlaps (Examples.tokyo_tower category_excerpt).2
    (Examples.tokyo_tower category_excerpt).1 4 2 = Py.Ok [0; 1]%nat
  ∧ ∃ pre post,
      (Examples.tokyo_tower category_excerpt).1 = pre ++ [0; 1]%nat ++ post.
Proof.
  assert (ChunkList.get_overlaps (Examples.tokyo_tower category_excerpt).2
            (Examples.tokyo_tower category_excerpt).1 4 2 = Py.Ok [0; 1]%nat)
    as Hrun by (vm_compute; reflexivity).
  split; [exact Hrun|].
  exact (get_overlaps_contiguous _ _ _ _ _ Hrun).
Defined.

(** X5. [get_overlaps] raises exactly when [offset] is not an index of the
    concatenated text, that is outside [-len(text), len(text)); the
    exception is IndexError.  On an empty chunk list it raises for every
    offset. *)
Theorem get_overlaps_raises_iff h cs offset length :
  ((∃ e, ChunkList.get_overlaps h cs offset length = Py.Raise e)
   ↔ ¬ (- Py.len (Heap.text h cs) ≤ offset < Py.len (Heap.text h cs)))
  ∧ (∀ e, ChunkList.get_overlaps h cs offset length = Py.Raise e →
          e = Py.IndexError)
  ∧ ChunkList.get_overlaps h [] offset length = Py.Raise Py.IndexError.
Proof.
  pose proof (get_overlaps_raises h cs offset length) as Hcases.
  split_and!.
  - destruct (ChunkList.get_overlaps h cs offset length) as [sel|e].
    + split; [by intros [? ?]|done].
    + destruct Hcases as [_ Hout]. split; [done|by eexists].
  - intros e He. rewrite He in Hcases. by destruct Hcases.
  - pose proof (get_overlaps_raises h [] offset length) as Hnil.
    destruct (ChunkList.get_overlaps h [] offset length) as [sel|e].
    + unfold Heap.text, Py.len in Hnil. simpl in Hnil. lia.
    + by destruct Hnil as [-> _].
Qed.

End OverlapsRun.

(** ** swap and entity grouping keep the text *)

Ltac solve_live :=
  split;
  [ apply (bool_decide_unpack _); vm_compute; exact I
  | apply Forall_forall, (bool_decide_unpack _); vm_compute; exact I ].

Section Grouping.

Variable category : N → string.

Implicit Types (h : heap) (cs pre old post : list ref) (r new : ref).

Lemma heap_text_app h cs1 cs2 :
  Heap.text h (cs1 ++ cs2) = Heap.text h cs1 ++ Heap.text h cs2.
Proof.
  unfold Heap.text, Heap.view, Py.join. by rewrite !fmap_app, concat_app.
Qed.

Lemma heap_text_ext h h' cs :
  (∀ r, r ∈ cs → Heap.get h' r = Heap.get h r) →
  Heap.text h' cs = Heap.text h cs.
Proof. intros Hext. unfold Heap.text. by rewrite (view_ext h h' cs). Qed.

Lemma heap_text_singleton h r : Heap.text h [r] = Chunk.word (Heap.get h r).
Proof. unfold Heap.text, Heap.view, Py.join. simpl. apply app_nil_r. Qed.

Lemma swap_text h pre old post new :
  Chunk.word (Heap.get h new) = Heap.text h old →
  Heap.text h (pre ++ new :: post) = Heap.text h (pre ++ old ++ post).
Proof.
  intros Hword. rewrite (heap_text_app h pre (old ++ post)), (heap_text_app h old post).
  change (new :: post) with ([new] ++ post).
  rewrite (heap_text_app h pre), (heap_text_app h [new]), heap_text_singleton.
  by rewrite Hword.
Qed.

(** X6. When the old chunks are a run of consecutive, distinct members of
    the list, [swap] replaces exactly that run by the new chunk; if the
    word of the new chunk is the concatenation of the words of the run,
    the concatenated text of the list is unchanged. *)
Theorem swap_contiguous_text h pre old post new :
  NoDup (pre ++ old ++ post) → old ≠ [] →
  Chunk.word (Heap.get h new) = Heap.text h old →
  ChunkList.swap (pre ++ old ++ post) old new = Py.Ok (pre ++ new :: post)
  ∧ Heap.text h (pre ++ new :: post) = Heap.text h (pre ++ old ++ post).
Proof.
  intros Hnd Hne Hword. split.
  - by apply swap_contiguous.
  - by apply swap_text.
Qed.

Lemma swap_contiguous_text_witness :
  let h := <[3%nat := Chunk.mk (Py.u "Tokyo ") None None None]>
             (Examples.tokyo_tower category_excerpt).2 in
  NoDup ([] ++ [0; 1]%nat ++ [2%nat]) ∧ [0; 1]%nat ≠ []
  ∧ Chunk.word (Heap.get h 3%nat) = Heap.text h [0; 1]%nat
  ∧ ChunkList.swap ([] ++ [0; 1]%nat ++ [2%nat]) [0; 1]%nat 3%nat
    = Py.Ok ([] ++ 3%nat :: [2%nat])
  ∧ Heap.text h ([] ++ 3%nat :: [2%nat])
    = Heap.text h ([] ++ [0; 1]%nat ++ [2%nat]).
Proof.
  intros h.
  assert (NoDup ([] ++ [0; 1]%nat ++ [2%nat])) as Hnd
    by (apply (bool_decide_unpack _); vm_compute; exact I).
  assert ([0; 1]%nat ≠ []) as Hne by discriminate.
  assert (Chunk.word (Heap.get h 3%nat) = Heap.text h [0; 1]%nat) as Hword
    by (vm_compute; reflexivity).
  split; [exact Hnd|]. split; [exact Hne|]. split; [exact Hword|].
  exact (swap_contiguous_text h [] [0; 1]%nat [2%nat] 3%nat Hnd Hne Hword).
Defined.

Lemma group_chunks_cases entities cs h :
  live h cs →
  match Budou._group_chunks_by_entities category cs entities h with
  | Py.Ok (cs', h') =>
      live h' cs' ∧ Heap.text h' cs' = Heap.text h cs
      ∧ (length cs' ≤ length cs)%nat
      ∧ ∀ entity, entity ∈ entities →
          TextSpec.in_text h cs (Budou.entity_beginOffset entity)
  | Py.Raise e =>
      e = Py.IndexError
      ∧ ∃ entity, entity ∈ entities
          ∧ ¬ TextSpec.in_text h cs (Budou.entity_beginOffset entity)
  end.
Proof.
  revert cs h. induction entities as [|entity rest IH]; intros cs h Hlive.
  - simpl. split_and!; [done..|]. by intros entity ?%elem_of_nil.
  - cbn [Budou._group_chunks_by_entities].
    pose proof (get_overlaps_raises h cs (Budou.entity_beginOffset entity)
                  (Py.len (Budou.entity_content entity))) as Hrange.
    destruct (ChunkList.get_overlaps h cs _ _) as [sel|e] eqn:Hsel;
      cbn [Py.bind].
    2:{ destruct Hrange as [-> Hout]. split; [done|].
        exists entity. split; [apply elem_of_cons; by left|done]. }
    destruct sel as [|o old].
    { specialize (IH cs h Hlive).
      destruct (Budou._group_chunks_by_entities category cs rest h)
        as [[cs' h']|e].
      - destruct IH as (? & ? & ? & Hin). split_and!; [done..|].
        intros ent [->|?]%elem_of_cons; [done|by apply Hin].
      - destruct IH as (-> & ent & ? & ?). split; [done|].
        exists ent. split; [apply elem_of_cons; by right|done]. }
    apply get_overlaps_run in Hsel as (pre & post & ->).
    unfold Heap.alloc.
    set (new := fresh (dom h)).
    set (c := Chunk.__init__ category
                (Py.join (Chunk.word <$> Heap.view h (o :: old))) None None None).
    destruct Hlive as [Hnd Hdom].
    rewrite (swap_contiguous pre (o :: old) post new Hnd) by done.
    cbn [Py.bind].
    assert (new ∉ dom h) as Hfresh by apply is_fresh.
    assert (live (<[new := c]> h) (pre ++ new :: post)) as Hlive1.
    { eapply swap_live; [by split|exact Hfresh|].
      by apply swap_contiguous. }
    assert (Heap.text (<[new := c]> h) (pre ++ new :: post)
            = Heap.text h (pre ++ (o :: old) ++ post)) as Htext.
    { rewrite <- (heap_text_ext h (<[new := c]> h) (pre ++ (o :: old) ++ post)).
      - apply swap_text. rewrite get_insert_eq. unfold c.
        rewrite init_word. symmetry.
        apply (heap_text_ext h _ (o :: old)).
        intros r Hr. rewrite get_insert_ne; [done|]. intros <-.
        apply Hfresh, Hdom. apply elem_of_app. right.
        apply elem_of_app. by left.
      - intros r Hr. rewrite get_insert_ne; [done|]. intros <-.
        by apply Hfresh, Hdom. }
    specialize (IH _ _ Hlive1).
    destruct (Budou._group_chunks_by_entities category _ rest _)
      as [[cs' h']|e].
    + destruct IH as (? & Ht & Hlen & Hin). split_and!.
      * done.
      * by rewrite Ht.
      * rewrite !length_app in *. simpl in *. lia.
      * intros ent [->|Hent]%elem_of_cons; [done|].
        specialize (Hin ent Hent). unfold TextSpec.in_text in *. by rewrite <- Htext.
    + destruct IH as (-> & ent & Hent & Hout). split; [done|].
      exists ent. split; [apply elem_of_cons; by right|].
      unfold TextSpec.in_text in *. by rewrite <- Htext.
Qed.

(** X7. [_group_chunks_by_entities] on a list of distinct chunk objects
    either completes, and then the list still holds distinct objects, its
    concatenated text is unchanged, it has not grown, and every entity
    offset indexes that text; or it raises IndexError, and then some
    entity offset lies outside the text.  It never fails inside
    [swap]. *)
Theorem group_chunks_outcome entities cs h :
  live h cs →
  match Budou._group_chunks_by_entities category cs entities h with
  | Py.Ok (cs', h') =>
      live h' cs' ∧ Heap.text h' cs' = Heap.text h cs
      ∧ (length cs' ≤ length cs)%nat
      ∧ ∀ entity, entity ∈ entities →
          - Py.len (Heap.text h cs) ≤ Budou.entity_beginOffset entity
            < Py.len (Heap.text h cs)
  | Py.Raise e =>
      e = Py.IndexError
      ∧ ∃ entity, entity ∈ entities
          ∧ ¬ (- Py.len (Heap.text h cs) ≤ Budou.entity_beginOffset entity
               < Py.len (Heap.text h cs))
  end.
Proof. apply group_chunks_cases. Qed.

End Grouping.

Lemma group_chunks_outcome_witness :
  live (Examples.tokyo_tower category_excerpt).2
       (Examples.tokyo_tower category_excerpt).1
  ∧ match Budou._group_chunks_by_entities category_excerpt
            (Examples.tokyo_tower category_excerpt).1
            [Examples.tokyo_tower_entity]
            (Examples.tokyo_tower category_excerpt).2 with
    | Py.Ok (cs', h') =>
        live h' cs'
        ∧ Heap.text h' cs'
          = Heap.text (Examples.tokyo_tower category_excerpt).2
              (Examples.tokyo_tower category_excerpt).1
        ∧ (length cs' ≤ length (Examples.tokyo_tower category_excerpt).1)%nat
        ∧ ∀ entity, entity ∈ [Examples.tokyo_tower_entity] →
            - Py.len (Heap.text (Examples.tokyo_tower category_excerpt).2
                        (Examples.tokyo_tower category_excerpt).1)
            ≤ Budou.entity_beginOffset entity
            < Py.len (Heap.text (Examples.tokyo_tower category_excerpt).2
                        (Examples.tokyo_tower category_excerpt).1)
    | Py.Raise e =>
        e = Py.IndexError
        ∧ ∃ entity, entity ∈ [Examples.tokyo_tower_entity]
            ∧ ¬ (- Py.len (Heap.text (Examples.tokyo_tower category_excerpt).2
                             (Examples.tokyo_tower category_excerpt).1)
                 ≤ Budou.entity_beginOffset entity
                 < Py.len (Heap.text (Examples.tokyo_tower category_excerpt).2
                             (Examples.tokyo_tower category_excerpt).1))
    end.
Proof.
  assert (live (Examples.tokyo_tower category_excerpt).2
               (Examples.tokyo_tower category_excerpt).1) as Hlive
    by solve_live.
  split; [exact Hlive|].
  exact (group_chunks_outcome category_excerpt [Examples.tokyo_tower_entity]
           _ _ Hlive).
Defined.

(** ** What dependency resolution changes and what it leaves *)

Section ResolveCells.

Import Cells.

Implicit Types (d : bool) (x : cell) (l F B : list cell).

Lemma cond_true_iff x :
  cond true x = true ↔ Chunk.dependency x.2 = Some true.
Proof.
  unfold cond, Budou.concat_cond. simpl. rewrite orb_false_r.
  apply bool_decide_eq_true.
Qed.

Lemma cond_false_iff x :
  cond false x = true
  ↔ Chunk.dependency x.2 = Some false ∨ Chunk.is_space x.2 = true.
Proof.
  unfold cond, Budou.concat_cond. simpl.
  rewrite orb_true_iff, bool_decide_eq_true. done.
Qed.

Lemma resolve_partitioned_forward l : partitioned (cond true) (resolve l).
Proof.
  unfold resolve. apply (partitioned_key_sublist _ (pass true l)).
  - intros x y. apply cond_key.
  - apply pass_key_sublist.
  - apply (pass_shape true).
Qed.

Lemma resolve_partitioned_backward l :
  partitioned (cond false) (reverse (resolve l)).
Proof. unfold resolve. apply (pass_shape false). Qed.

Lemma pass_nothing_to_merge d l :
  Forall (λ x, cond d x = false) l → pass d l = l.
Proof.
  intros Hall. apply pass_stable. exists (trav d l), [].
  rewrite app_nil_r. split; [done|]. split; [|constructor].
  destruct d; simpl; [done|]. by apply Forall_reverse.
Qed.

Lemma loop_run d F rest b t :
  Forall (λ x, cond d x = true) F →
  loop d (F ++ rest) b t = loop d rest (b ++ F) t.
Proof.
  intros HF. revert b. induction HF as [|x F Hx _ IH]; intros b; simpl.
  - by rewrite app_nil_r.
  - rewrite Hx, IH. by rewrite <- app_assoc.
Qed.

Lemma pass_forward_run F x B :
  Forall (λ y, cond true y = true) F → cond true x = false →
  Forall (λ y, cond true y = false) B →
  pass true (F ++ x :: B) = merge true F x :: B.
Proof.
  intros HF Hx HB. unfold pass. simpl.
  rewrite loop_run by done. simpl. rewrite Hx.
  rewrite loop_target. simpl. f_equal.
  apply loop_stable. exists B, []. by rewrite app_nil_r.
Qed.

Lemma pass_backward_run x B :
  cond false x = false → Forall (λ y, cond false y = true) B →
  pass false (x :: B) = [merge false (reverse B) x].
Proof.
  intros Hx HB. unfold pass. simpl. rewrite reverse_cons.
  rewrite loop_run by (by apply Forall_reverse). simpl. by rewrite Hx.
Qed.

Lemma resolve_single_run F x B :
  Forall (λ y, cond true y = true) F →
  cond true x = false → cond false x = false →
  Forall (λ y, cond true y = false ∧ cond false y = true) B →
  resolve (F ++ x :: B)
  = [(x.1, Chunk.update_word x.2 (text (F ++ x :: B)))].
Proof.
  intros HF Hx1 Hx2 HB. unfold resolve.
  rewrite pass_forward_run; [|done..|by eapply Forall_impl; [exact HB|intros ? []]].
  rewrite pass_backward_run;
    [|by rewrite cond_merge|by eapply Forall_impl; [exact HB|intros ? []]].
  f_equal. unfold merge. simpl. f_equal. unfold Chunk.update_word. simpl.
  f_equal. rewrite reverse_app, reverse_involutive. simpl.
  unfold text, words, Py.join. simpl.
  rewrite !fmap_app, !concat_app. simpl.
  by rewrite app_nil_r, <- app_assoc.
Qed.

End ResolveCells.

Section ResolveMore.

Implicit Types (d : bool) (h : heap) (cs src b t : list ref) (r : ref).

Lemma update_word_fields h r w r' :
  Chunk.pos (Heap.get (Heap.update_word r w h) r') = Chunk.pos (Heap.get h r')
  ∧ Chunk.label (Heap.get (Heap.update_word r w h) r')
    = Chunk.label (Heap.get h r')
  ∧ Chunk.dependency (Heap.get (Heap.update_word r w h) r')
    = Chunk.dependency (Heap.get h r').
Proof.
  destruct (decide (r = r')) as [<-|Hne].
  - by rewrite get_update_word_eq.
  - by rewrite get_update_word_ne.
Qed.

Lemma concat_loop_fields d src b t h r :
  Chunk.pos (Heap.get (Budou.concat_loop d src b t h).2 r)
  = Chunk.pos (Heap.get h r)
  ∧ Chunk.label (Heap.get (Budou.concat_loop d src b t h).2 r)
    = Chunk.label (Heap.get h r)
  ∧ Chunk.dependency (Heap.get (Budou.concat_loop d src b t h).2 r)
    = Chunk.dependency (Heap.get h r).
Proof.
  revert b t h. induction src as [|chunk rest IH]; intros b t h; simpl.
  - done.
  - destruct (Budou.concat_cond d (Heap.get h chunk)); [apply IH|].
    destruct (IH [] (t ++ [chunk])
                (Heap.update_word chunk
                   (Py.join (Chunk.word <$>
                      Heap.view h (if d then b ++ [chunk]
                                   else reverse (b ++ [chunk])))) h))
      as (-> & -> & ->).
    apply update_word_fields.
Qed.

Lemma concat_loop_untouched d src b t h r :
  r ∉ src →
  Heap.get (Budou.concat_loop d src b t h).2 r = Heap.get h r.
Proof.
  revert b t h. induction src as [|chunk rest IH]; intros b t h Hr; simpl.
  - done.
  - apply not_elem_of_cons in Hr as [Hne Hr].
    destruct (Budou.concat_cond d (Heap.get h chunk)); [by apply IH|].
    rewrite IH by done. by apply get_update_word_ne.
Qed.

Lemma concatenate_inner_fields cs d h r :
  Chunk.pos (Heap.get (Budou._concatenate_inner cs d h).2 r)
  = Chunk.pos (Heap.get h r)
  ∧ Chunk.label (Heap.get (Budou._concatenate_inner cs d h).2 r)
    = Chunk.label (Heap.get h r)
  ∧ Chunk.dependency (Heap.get (Budou._concatenate_inner cs d h).2 r)
    = Chunk.dependency (Heap.get h r)
  ∧ (r ∉ cs → Heap.get (Budou._concatenate_inner cs d h).2 r = Heap.get h r).
Proof.
  unfold Budou._concatenate_inner.
  pose proof (concat_loop_fields d (if d then cs else reverse cs) [] [] h r)
    as Hf.
  pose proof (concat_loop_untouched d (if d then cs else reverse cs) [] [] h r)
    as Hu.
  destruct (Budou.concat_loop _ _ _ _ _) as [target h']. simpl in *.
  destruct Hf as (? & ? & ?). split_and!; [done..|].
  intros Hr. apply Hu. destruct d; [done|]. by rewrite elem_of_reverse.
Qed.

(** X8. Dependency resolution creates no chunk and reorders none: the
    result is a sublist of the given list of distinct chunk objects.  It
    changes no pos, label or dependency of any object, and no object
    outside the list at all; only words of listed chunks change. *)
Theorem resolve_keeps_attributes cs h :
  NoDup cs →
  let res := Budou._resolve_dependency cs h in
  res.1 `sublist_of` cs
  ∧ ∀ r,
      Chunk.pos (Heap.get res.2 r) = Chunk.pos (Heap.get h r)
      ∧ Chunk.label (Heap.get res.2 r) = Chunk.label (Heap.get h r)
      ∧ Chunk.dependency (Heap.get res.2 r) = Chunk.dependency (Heap.get h r)
      ∧ (r ∉ cs → Heap.get res.2 r = Heap.get h r).
Proof.
  intros Hnd res. split; [by apply resolve_dependency_sublist|].
  intros r. unfold res, Budou._resolve_dependency.
  pose proof (concatenate_inner_fields cs true h r) as H1.
  pose proof (concatenate_inner_sublist cs true h Hnd) as Hsub.
  destruct (Budou._concatenate_inner cs true h) as [cs1 h1]. simpl in *.
  pose proof (concatenate_inner_fields cs1 false h1 r) as H2.
  destruct H1 as (Hp1 & Hl1 & Hd1 & Hu1), H2 as (Hp2 & Hl2 & Hd2 & Hu2).
  split_and!; [congruence..|].
  intros Hr. rewrite Hu2, Hu1; [done..|].
  intros Hin. apply Hr. by eapply sublist_subseteq.
Qed.

Lemma resolve_keeps_attributes_witness :
  NoDup Examples.bracketed_chunks.1
  ∧ let res := Budou._resolve_dependency Examples.bracketed_chunks.1
                 Examples.bracketed_chunks.2 in
    res.1 `sublist_of` Examples.bracketed_chunks.1
    ∧ ∀ r,
        Chunk.pos (Heap.get res.2 r)
        = Chunk.pos (Heap.get Examples.bracketed_chunks.2 r)
        ∧ Chunk.label (Heap.get res.2 r)
          = Chunk.label (Heap.get Examples.bracketed_chunks.2 r)
        ∧ Chunk.dependency (Heap.get res.2 r)
          = Chunk.dependency (Heap.get Examples.bracketed_chunks.2 r)
        ∧ (r ∉ Examples.bracketed_chunks.1 →
           Heap.get res.2 r = Heap.get Examples.bracketed_chunks.2 r).
Proof.
  assert (NoDup Examples.bracketed_chunks.1) as Hnd
    by (apply (bool_decide_unpack _); vm_compute; exact I).
  split; [exact Hnd|].
  exact (resolve_keeps_attributes _ _ Hnd).
Defined.

Lemma view_snapshot_split h cs (A B : list Cells.cell) :
  Cells.snapshot h cs = A ++ B → Heap.view h cs = A.*2 ++ B.*2.
Proof. intros Hs. by rewrite <- snapshot_snd, Hs, fmap_app. Qed.

(** X9. In the result of dependency resolution the chunks that are
    backward or spaces stand before all others (they are the ones that
    found no chunk to attach to), and the forward chunks stand after all
    others (the dangling run at the end). *)
Theorem resolve_shape cs h :
  NoDup cs →
  let res := Budou._resolve_dependency cs h in
  (∃ L M, Heap.view res.2 res.1 = L ++ M
     ∧ Forall (λ c, Chunk.dependency c = Some false ∨ Chunk.is_space c = true) L
     ∧ Forall (λ c, ¬ (Chunk.dependency c = Some false
                       ∨ Chunk.is_space c = true)) M)
  ∧ (∃ N T, Heap.view res.2 res.1 = N ++ T
       ∧ Forall (λ c, Chunk.dependency c ≠ Some true) N
       ∧ Forall (λ c, Chunk.dependency c = Some true) T).
Proof.
  intros Hnd res.
  pose proof (resolve_dependency_refines cs h Hnd) as Href. fold res in Href.
  split.
  - destruct (resolve_partitioned_backward (Cells.snapshot h cs))
      as (A & B & Hrev & HA & HB).
    rewrite <- Href in Hrev.
    apply (f_equal reverse) in Hrev.
    rewrite reverse_involutive, reverse_app in Hrev.
    exists (reverse B).*2, (reverse A).*2.
    split; [by apply view_snapshot_split|].
    split; apply Forall_fmap, Forall_reverse;
      (eapply Forall_impl; [eassumption|]); intros x Hx; simpl.
    + by apply cond_false_iff.
    + rewrite <- cond_false_iff. by rewrite Hx.
  - destruct (resolve_partitioned_forward (Cells.snapshot h cs))
      as (A & B & Hsplit & HA & HB).
    rewrite <- Href in Hsplit.
    exists A.*2, B.*2. split; [by apply view_snapshot_split|].
    split; apply Forall_fmap;
      (eapply Forall_impl; [eassumption|]); intros x Hx; simpl.
    + rewrite <- cond_true_iff. by rewrite Hx.
    + by apply cond_true_iff.
Qed.

Lemma resolve_shape_witness :
  NoDup Examples.bracketed_chunks.1
  ∧ let res := Budou._resolve_dependency Examples.bracketed_chunks.1
                 Examples.bracketed_chunks.2 in
    (∃ L M, Heap.view res.2 res.1 = L ++ M
       ∧ Forall (λ c, Chunk.dependency c = Some false
                      ∨ Chunk.is_space c = true) L
       ∧ Forall (λ c, ¬ (Chunk.dependency c = Some false
                         ∨ Chunk.is_space c = true)) M)
    ∧ (∃ N T, Heap.view res.2 res.1 = N ++ T
         ∧ Forall (λ c, Chunk.dependency c ≠ Some true) N
         ∧ Forall (λ c, Chunk.dependency c = Some true) T).
Proof.
  assert (NoDup Examples.bracketed_chunks.1) as Hnd
    by (apply (bool_decide_unpack _); vm_compute; exact I).
  split; [exact Hnd|].
  exact (resolve_shape _ _ Hnd).
Defined.

(** X10. When no chunk of the list has a dependency and none is a space,
    dependency resolution returns the same chunks with the same words:
    there is nothing to merge. *)
Theorem resolve_nothing_to_merge cs h :
  NoDup cs →
  Forall (λ r, Chunk.dependency (Heap.get h r) = None
               ∧ Chunk.is_space (Heap.get h r) = false) cs →
  let res := Budou._resolve_dependency cs h in
  res.1 = cs ∧ Heap.view res.2 res.1 = Heap.view h cs.
Proof.
  intros Hnd Hall res.
  pose proof (resolve_dependency_refines cs h Hnd) as Href. fold res in Href.
  assert (Cells.resolve (Cells.snapshot h cs) = Cells.snapshot h cs) as Hid.
  { assert (∀ d, Forall (λ x, Cells.cond d x = false) (Cells.snapshot h cs))
      as Hcond.
    { intros d. apply Forall_fmap. eapply Forall_impl; [exact Hall|].
      intros r [Hd Hs]. unfold Cells.cond, Budou.concat_cond. simpl.
      by rewrite Hd, Hs, andb_false_r. }
    unfold Cells.resolve.
    rewrite (pass_nothing_to_merge true) by done.
    by rewrite (pass_nothing_to_merge false). }
  rewrite Hid in Href. split.
  - by rewrite <- (snapshot_fst res.2 res.1), Href, snapshot_fst.
  - by rewrite <- !snapshot_snd, Href.
Qed.

Lemma resolve_nothing_to_merge_witness :
  let h := (Examples.tokyo_tower category_excerpt).2 in
  NoDup [0; 2]%nat
  ∧ Forall (λ r, Chunk.dependency (Heap.get h r) = None
                 ∧ Chunk.is_space (Heap.get h r) = false) [0; 2]%nat
  ∧ let res := Budou._resolve_dependency [0; 2]%nat h in
    res.1 = [0; 2]%nat ∧ Heap.view res.2 res.1 = Heap.view h [0; 2]%nat.
Proof.
  intros h.
  assert (NoDup [0; 2]%nat) as Hnd
    by (apply (bool_decide_unpack _); vm_compute; exact I).
  assert (Forall (λ r, Chunk.dependency (Heap.get h r) = None
                       ∧ Chunk.is_space (Heap.get h r) = false) [0; 2]%nat)
    as Hall by (apply (bool_decide_unpack _); vm_compute; exact I).
  split; [exact Hnd|]. split; [exact Hall|].
  exact (resolve_nothing_to_merge _ h Hnd Hall).
Defined.

(** X11. A run of forward chunks, then a chunk without dependency that is
    no space, then backward or space chunks that are not forward: the
    whole list resolves to that one middle chunk, and its word becomes the
    concatenated text of the whole list. *)
Theorem resolve_single_chunk (fs : list ref) (t : ref) (bs : list ref) h :
  NoDup (fs ++ t :: bs) →
  Forall (λ r, Chunk.dependency (Heap.get h r) = Some true) fs →
  Chunk.dependency (Heap.get h t) = None →
  Chunk.is_space (Heap.get h t) = false →
  Forall (λ r, Chunk.dependency (Heap.get h r) ≠ Some true
               ∧ (Chunk.dependency (Heap.get h r) = Some false
                  ∨ Chunk.is_space (Heap.get h r) = true)) bs →
  let res := Budou._resolve_dependency (fs ++ t :: bs) h in
  res.1 = [t]
  ∧ Heap.get res.2 t
    = Chunk.update_word (Heap.get h t) (Heap.text h (fs ++ t :: bs)).
Proof.
  intros Hnd Hfs Htd Hts Hbs res.
  pose proof (resolve_dependency_refines _ h Hnd) as Href. fold res in Href.
  rewrite snapshot_app in Href.
  change (Cells.snapshot h (t :: bs))
    with ((t, Heap.get h t) :: Cells.snapshot h bs) in Href.
  rewrite resolve_single_run in Href.
  - simpl in Href.
    change ((t, Heap.get h t) :: Cells.snapshot h bs)
      with (Cells.snapshot h (t :: bs)) in Href.
    rewrite <- snapshot_app, snapshot_text in Href.
    assert (res.1 = [t]) as Hl.
    { by rewrite <- (snapshot_fst res.2 res.1), Href. }
    split; [done|]. rewrite Hl in Href. by injection Href.
  - apply Forall_fmap. eapply Forall_impl; [exact Hfs|].
    intros r Hr. by apply cond_true_iff.
  - unfold Cells.cond, Budou.concat_cond. simpl. by rewrite Htd.
  - unfold Cells.cond, Budou.concat_cond. simpl. by rewrite Htd, Hts.
  - apply Forall_fmap. eapply Forall_impl; [exact Hbs|].
    intros r [Hr1 Hr2]. simpl. split.
    + destruct (Cells.cond true (r, Heap.get h r)) eqn:Hc; [|done].
      by apply cond_true_iff in Hc.
    + by apply cond_false_iff.
Qed.

Lemma resolve_single_chunk_witness :
  let h := Examples.bracketed_chunks.2 in
  NoDup ([0%nat] ++ 1%nat :: [2; 3]%nat)
  ∧ Forall (λ r, Chunk.dependency (Heap.get h r) = Some true) [0%nat]
  ∧ Chunk.dependency (Heap.get h 1%nat) = None
  ∧ Chunk.is_space (Heap.get h 1%nat) = false
  ∧ Forall (λ r, Chunk.dependency (Heap.get h r) ≠ Some true
                 ∧ (Chunk.dependency (Heap.get h r) = Some false
                    ∨ Chunk.is_space (Heap.get h r) = true)) [2; 3]%nat
  ∧ let res := Budou._resolve_dependency ([0%nat] ++ 1%nat :: [2; 3]%nat) h in
    res.1 = [1%nat]
    ∧ Heap.get res.2 1%nat
      = Chunk.update_word (Heap.get h 1%nat)
          (Heap.text h ([0%nat] ++ 1%nat :: [2; 3]%nat)).
Proof.
  intros h.
  assert (NoDup ([0%nat] ++ 1%nat :: [2; 3]%nat)) as Hnd
    by (apply (bool_decide_unpack _); vm_compute; exact I).
  assert (Forall (λ r, Chunk.dependency (Heap.get h r) = Some true) [0%nat])
    as Hfs by (apply (bool_decide_unpack _); vm_compute; exact I).
  assert (Chunk.dependency (Heap.get h 1%nat) = None) as Htd
    by (vm_compute; reflexivity).
  assert (Chunk.is_space (Heap.get h 1%nat) = false) as Hts
    by (vm_compute; reflexivity).
  assert (Forall (λ r, Chunk.dependency (Heap.get h r) ≠ Some true
                       ∧ (Chunk.dependency (Heap.get h r) = Some false
                          ∨ Chunk.is_space (Heap.get h r) = true)) [2; 3]%nat)
    as Hbs by (apply (bool_decide_unpack _); vm_compute; exact I).
  split; [exact Hnd|]. split; [exact Hfs|]. split; [exact Htd|].
  split; [exact Hts|]. split; [exact Hbs|].
  exact (resolve_single_chunk [0%nat] 1%nat [2; 3]%nat h Hnd Hfs Htd Hts Hbs).
Defined.

End ResolveMore.

(** ** The text of the chunk lists the parser builds *)

Section PipelineText.

Variable category : N → string.

Implicit Types (h : heap) (cs : list ref) (text : Py.unicode).

Lemma strip_prefix_Some pre text rest :
  TextSpec.strip_prefix pre text = Some rest → text = pre ++ rest.
Proof.
  revert text. induction pre as [|a pre IH]; intros [|b text]; simpl;
    try by intros [= ->].
  destruct (decide (a = b)) as [->|]; [|done].
  intros Hs. by rewrite (IH _ Hs).
Qed.

Lemma maybe_add_dependency_word (c : Chunk.t) d :
  Chunk.word (Chunk.maybe_add_dependency c d) = Chunk.word c.
Proof. unfold Chunk.maybe_add_dependency. by case_match. Qed.

Lemma heap_text_snoc h cs (c : Chunk.t) h' cs' :
  Heap.view h' cs' = Heap.view h cs ++ [c] →
  Heap.text h' cs' = Heap.text h cs ++ Chunk.word c.
Proof.
  intros Hv. unfold Heap.text, Py.join. rewrite Hv, fmap_app, concat_app.
  simpl. by rewrite app_nil_r.
Qed.

Lemma source_chunks_loop_text i tokens cs sentence_length h text :
  live h cs →
  TextSpec.annotates sentence_length tokens text = true →
  let res := Budou.source_chunks_loop category i tokens cs sentence_length h in
  live res.2 res.1 ∧ Heap.text res.2 res.1 = Heap.text h cs ++ text.
Proof.
  revert i cs sentence_length h text.
  induction tokens as [|token rest IH];
    intros i cs sentence_length h text Hlive Hann.
  - simpl in *. apply bool_decide_eq_true in Hann as ->.
    by rewrite app_nil_r.
  - cbn [TextSpec.annotates] in Hann. cbn [Budou.source_chunks_loop].
    set (c0 := Chunk.__init__ category (Budou.content token)
                 (Some (Budou.tag token)) (Some (Budou.dep_label token)) None).
    assert (∃ cs1 h1 text1,
              (if sentence_length <? Budou.beginOffset token
               then let '(sp, h0) := Heap.alloc (Chunk.space category) h in
                    (cs ++ [sp], Budou.beginOffset token, h0)
               else (cs, sentence_length, h))
              = (cs1, Budou.beginOffset token, h1)
              ∧ live h1 cs1
              ∧ Heap.text h1 cs1 ++ Budou.content token ++ text1
                = Heap.text h cs ++ text
              ∧ TextSpec.annotates
                  (Budou.beginOffset token + Py.len (Budou.content token))
                  rest text1 = true)
      as (cs1 & h1 & text1 & -> & Hlive1 & Htext1 & Hrest).
    { destruct (Z.eqb_spec (Budou.beginOffset token) sentence_length)
        as [Heq|Hne].
      - rewrite Heq, Z.ltb_irrefl. simpl in Hann.
        destruct (TextSpec.strip_prefix (Budou.content token) text)
          as [text1|] eqn:Hstrip; [|done].
        apply strip_prefix_Some in Hstrip as ->.
        exists cs, h, text1. by rewrite <- Heq.
      - destruct (Z.eqb_spec (Budou.beginOffset token) (sentence_length + 1))
          as [Heq|?]; [|done].
        destruct (Z.ltb_spec sentence_length (Budou.beginOffset token))
          as [_|?]; [|lia].
        destruct (TextSpec.strip_prefix [Py.SP] text) as [text0|] eqn:Hsp;
          [|done].
        apply strip_prefix_Some in Hsp as ->. simpl in Hann.
        destruct (TextSpec.strip_prefix (Budou.content token) text0)
          as [text1|] eqn:Hstrip; [|done].
        apply strip_prefix_Some in Hstrip as ->.
        destruct (live_alloc (Chunk.space category) h _ _ cs eq_refl Hlive)
          as [Hl Hv].
        eexists _, _, text1. split; [done|]. split; [exact Hl|].
        split; [|done].
        rewrite (heap_text_snoc _ _ _ _ _ Hv). by rewrite <- app_assoc. }
    pose proof (eq_refl : Heap.alloc c0 h1
                          = (fresh (dom h1), <[fresh (dom h1) := c0]> h1))
      as Hchunk.
    unfold Heap.alloc.
    set (chunk := fresh (dom h1)) in *. set (h2 := <[chunk := c0]> h1) in *.
    destruct (live_alloc _ _ _ _ _ Hchunk Hlive1) as [Hlive2 Hview2].
    destruct (live_maybe_add_dependency h2 cs1 chunk
                (Z.of_nat i <? Budou.headTokenIndex token) Hlive2)
      as [Hlive3 Hview3].
    destruct (IH (S i) _ _ _ _ Hlive3 Hrest) as [Hlive' Htext'].
    split; [exact Hlive'|]. rewrite Htext'.
    rewrite (heap_text_snoc _ _ _ _ _ Hview3), maybe_add_dependency_word.
    assert (Heap.get h2 chunk = c0) as -> by apply get_insert_eq.
    unfold c0. rewrite init_word.
    rewrite (heap_text_ext h1 h2 cs1).
    + rewrite <- Htext1. by rewrite <- !app_assoc.
    + intros r Hr. apply get_insert_ne. intros <-.
      apply (is_fresh (dom h1)). by apply Hlive1.
Qed.

Lemma source_chunks_text_live tokens h text :
  TextSpec.annotates 0 tokens text = true →
  live (Budou._get_source_chunks category tokens h).2
       (Budou._get_source_chunks category tokens h).1
  ∧ Heap.text (Budou._get_source_chunks category tokens h).2
              (Budou._get_source_chunks category tokens h).1 = text.
Proof.
  intros Hann. unfold Budou._get_source_chunks.
  apply (source_chunks_loop_text 0 tokens [] 0 h text); [|done].
  split; [constructor | by intros r ?%elem_of_nil].
Qed.

(** X12. When the tokens annotate the input text (every token's content
    stands at its [beginOffset], directly after the previous token or
    after exactly one space), the words of the chunk list that
    [_get_source_chunks] builds concatenate to the input text, and the
    list consists of distinct chunk objects. *)
Theorem source_chunks_text tokens h text :
  TextSpec.annotates 0 tokens text = true →
  let res := Budou._get_source_chunks category tokens h in
  Heap.text res.2 res.1 = text ∧ NoDup res.1.
Proof.
  intros Hann res.
  destruct (source_chunks_text_live tokens h text Hann) as [[Hnd _] Htext].
  done.
Qed.

Lemma resolve_text_NoDup cs h :
  NoDup cs →
  Heap.text (Budou._resolve_dependency cs h).2 (Budou._resolve_dependency cs h).1
  = Heap.text h cs
  ∧ NoDup (Budou._resolve_dependency cs h).1.
Proof.
  intros Hnd. split.
  - rewrite <- !snapshot_text, resolve_dependency_refines by done.
    apply resolve_cells_text.
  - eapply sublist_NoDup; [exact Hnd|]. by apply resolve_dependency_sublist.
Qed.

(** X13. When the tokens annotate the input text, [_get_chunks_with_api]
    either returns a list of distinct chunks whose words concatenate to the
    input text (entity grouping and dependency resolution included), or
    raises IndexError, which happens only with entities and only when an
    entity's offset lies outside the text. *)
Theorem chunks_with_api_text tokens entities h text :
  TextSpec.annotates 0 tokens text = true →
  match Budou._get_chunks_with_api category tokens entities h with
  | Py.Ok (cs, h') => Heap.text h' cs = text ∧ NoDup cs
  | Py.Raise e =>
      e = Py.IndexError
      ∧ ∃ es entity,
          entities = Some es ∧ entity ∈ es
          ∧ ¬ (- Py.len text ≤ Budou.entity_beginOffset entity < Py.len text)
  end.
Proof.
  intros Hann. unfold Budou._get_chunks_with_api.
  destruct (source_chunks_text_live tokens h text Hann) as [Hlive Htext].
  destruct (Budou._get_source_chunks category tokens h) as [cs0 h0].
  simpl in *. destruct entities as [es|]; simpl.
  - pose proof (group_chunks_cases category es cs0 h0 Hlive) as Hgroup.
    destruct (Budou._group_chunks_by_entities category cs0 es h0)
      as [[cs1 h1]|e]; simpl.
    + destruct Hgroup as ([Hnd1 _] & Htext1 & _).
      destruct (resolve_text_NoDup cs1 h1 Hnd1) as [Ht Hn].
      destruct (Budou._resolve_dependency cs1 h1) as [cs2 h2]. simpl in *.
      split; [congruence|done].
    + destruct Hgroup as (-> & entity & Hin & Hout). split; [done|].
      exists es, entity. unfold TextSpec.in_text in Hout.
      by rewrite Htext in Hout.
  - destruct Hlive as [Hnd0 _].
    destruct (resolve_text_NoDup cs0 h0 Hnd0) as [Ht Hn].
    destruct (Budou._resolve_dependency cs0 h0) as [cs2 h2]. simpl in *.
    split; [congruence|done].
Qed.

End PipelineText.

Lemma source_chunks_text_witness :
  TextSpec.annotates 0 Examples.three_apples (Py.u "3 apples") = true
  ∧ let res := Budou._get_source_chunks category_excerpt
                 Examples.three_apples ∅ in
    Heap.text res.2 res.1 = Py.u "3 apples" ∧ NoDup res.1.
Proof.
  assert (TextSpec.annotates 0 Examples.three_apples (Py.u "3 apples") = true)
    as Hann by (vm_compute; reflexivity).
  split; [exact Hann|].
  exact (source_chunks_text category_excerpt Examples.three_apples ∅ _ Hann).
Defined.

Lemma chunks_with_api_text_witness :
  TextSpec.annotates 0 Examples.three_apples (Py.u "3 apples") = true
  ∧ match Budou._get_chunks_with_api category_excerpt Examples.three_apples
            (Some [Budou.mkEntity 2 (Py.u "apples")]) ∅ with
    | Py.Ok (cs, h') => Heap.text h' cs = Py.u "3 apples" ∧ NoDup cs
    | Py.Raise e =>
        e = Py.IndexError
        ∧ ∃ es entity,
            Some [Budou.mkEntity 2 (Py.u "apples")] = Some es ∧ entity ∈ es
            ∧ ¬ (- Py.len (Py.u "3 apples") ≤ Budou.entity_beginOffset entity
                 < Py.len (Py.u "3 apples"))
    end.
Proof.
  assert (TextSpec.annotates 0 Examples.three_apples (Py.u "3 apples") = true)
    as Hann by (vm_compute; reflexivity).
  split; [exact Hann|].
  exact (chunks_with_api_text category_excerpt Examples.three_apples
           (Some [Budou.mkEntity 2 (Py.u "apples")]) ∅ _ Hann).
Defined.

(** ** str.split and the space-delimited path *)

Section PerSpace.

Variable category : N → string.
Variable isspace : N → bool.

Implicit Types (s w word : list N) (ws : list (list N))
  (h : heap) (cs : list ref).

Lemma split_from_spec s word :
  Forall (λ c, isspace c = false) word →
  Forall (TextSpec.is_word isspace) (Py.split_from isspace s word)
  ∧ concat (Py.split_from isspace s word)
    = word ++ filter (λ c, isspace c = false) s.
Proof.
  revert word. induction s as [|c s IH]; intros word Hword;
    cbn [Py.split_from].
  - rewrite filter_nil, app_nil_r. destruct word as [|a word].
    + split; [constructor|done].
    + split; [|by simpl; rewrite app_nil_r].
      constructor; [by split|constructor].
  - destruct (isspace c) eqn:Hc.
    + rewrite filter_cons_False by congruence.
      destruct word as [|a word].
      * apply IH. constructor.
      * destruct (IH [] (Forall_nil_2 _)) as [Hall Hcat].
        split; [constructor; [by split|done]|]. simpl. by rewrite Hcat.
    + rewrite filter_cons_True by done.
      destruct (IH (word ++ [c])) as [Hall Hcat].
      { apply Forall_app. split; [done|]. by constructor. }
      split; [done|]. by rewrite Hcat, <- app_assoc.
Qed.

(** Every word that [split] returns is non-empty and free of whitespace,
    and the words concatenate to the input with its whitespace removed. *)
Lemma split_words s :
  Forall (λ w, w ≠ [] ∧ Forall (λ c, isspace c = false) w)
    (Py.split isspace s)
  ∧ concat (Py.split isspace s) = filter (λ c, isspace c = false) s.
Proof. apply (split_from_spec s []). constructor. Qed.

Lemma split_from_word w s word :
  Forall (λ c, isspace c = false) w →
  Py.split_from isspace (w ++ s) word = Py.split_from isspace s (word ++ w).
Proof.
  intros Hw. revert word. induction Hw as [|c w Hc _ IH]; intros word; simpl.
  - by rewrite app_nil_r.
  - rewrite Hc, IH. by rewrite <- app_assoc.
Qed.

Lemma split_separated ws :
  isspace Py.SP = true → Forall (TextSpec.is_word isspace) ws →
  Py.split isspace (concat (TextSpec.separated [Py.SP] ws)) = ws.
Proof.
  intros Hsp Hws. unfold Py.split.
  induction Hws as [|w ws [Hne Hw] Hrest IH]; [done|].
  destruct ws as [|w2 ws].
  - simpl. rewrite app_nil_r.
    rewrite <- (app_nil_r w) at 1. rewrite split_from_word by done.
    simpl. by destruct w.
  - change (concat (TextSpec.separated [Py.SP] (w :: w2 :: ws)))
      with (w ++ Py.SP :: concat (TextSpec.separated [Py.SP] (w2 :: ws))).
    rewrite split_from_word by done. cbn [Py.split_from app].
    rewrite Hsp. destruct w as [|a w]; [done|]. by rewrite IH.
Qed.

Lemma init_word_chunk w :
  Chunk.__init__ category w None None None = TextSpec.word_chunk w.
Proof. reflexivity. Qed.

Lemma space_space_chunk : Chunk.space category = TextSpec.space_chunk.
Proof. reflexivity. Qed.

Lemma per_space_loop_view i n ws cs h :
  n = Z.of_nat (i + length ws) → live h cs →
  let res := Budou.per_space_loop category i n ws cs h in
  live res.2 res.1
  ∧ Heap.view res.2 res.1
    = Heap.view h cs
      ++ TextSpec.separated TextSpec.space_chunk (TextSpec.word_chunk <$> ws).
Proof.
  revert i cs h. induction ws as [|w ws IH]; intros i cs h Hn Hlive.
  - simpl. by rewrite app_nil_r.
  - cbn [Budou.per_space_loop]. rewrite init_word_chunk, space_space_chunk.
    destruct (live_alloc (TextSpec.word_chunk w) h _ _ cs eq_refl Hlive)
      as [Hlive1 Hview1].
    unfold Heap.alloc at 1.
    set (chunk := fresh (dom h)) in *.
    set (h1 := <[chunk := TextSpec.word_chunk w]> h) in *.
    destruct ws as [|w2 ws].
    + destruct (Z.ltb_spec (Z.of_nat i) (n - 1)) as [?|_];
        [simpl in Hn; lia|].
      split; [exact Hlive1|exact Hview1].
    + destruct (Z.ltb_spec (Z.of_nat i) (n - 1)) as [_|?];
        [|simpl in Hn; lia].
      destruct (live_alloc TextSpec.space_chunk h1 _ _ (cs ++ [chunk])
                  eq_refl Hlive1) as [Hlive2 Hview2].
      unfold Heap.alloc.
      destruct (IH (S i) _ _ ltac:(simpl in *; lia) Hlive2) as [Hl Hv].
      split; [exact Hl|]. etrans; [exact Hv|]. rewrite Hview2, Hview1.
      by rewrite <- !app_assoc.
Qed.

Lemma words_separated (vs : list Chunk.t) (sp : Chunk.t) :
  Chunk.word <$> TextSpec.separated sp vs
  = TextSpec.separated (Chunk.word sp) (Chunk.word <$> vs).
Proof.
  induction vs as [|v vs IH]; [done|].
  destruct vs as [|v2 vs]; [done|].
  change (TextSpec.separated sp (v :: v2 :: vs))
    with (v :: sp :: TextSpec.separated sp (v2 :: vs)).
  rewrite !fmap_cons, IH. done.
Qed.

(** X14. [_get_chunks_per_space] returns distinct chunk objects: one
    chunk without pos, label and dependency per word of [split], in
    order, with one space chunk between consecutive words and none before
    the first or after the last word (none at all for a text without
    words); their words concatenate to the words joined by single
    spaces. *)
Theorem chunks_per_space_view input_text h :
  let res := Budou._get_chunks_per_space category isspace input_text h in
  Heap.view res.2 res.1
  = TextSpec.separated TextSpec.space_chunk
      (TextSpec.word_chunk <$> Py.split isspace input_text)
  ∧ NoDup res.1
  ∧ Heap.text res.2 res.1
    = concat (TextSpec.separated (Py.u " ") (Py.split isspace input_text)).
Proof.
  intros res. unfold res, Budou._get_chunks_per_space.
  destruct (per_space_loop_view 0 (Py.len (Py.split isspace input_text))
              (Py.split isspace input_text) [] h) as [[Hnd _] Hview].
  { done. }
  { split; [constructor | by intros r ?%elem_of_nil]. }
  simpl in Hview. split_and!; [done..|].
  unfold Heap.text, Py.join. rewrite Hview, words_separated.
  rewrite <- list_fmap_compose. by rewrite list_fmap_id.
Qed.

(** X15. For a text that consists of words (non-empty, free of
    whitespace) joined by single spaces, the words of the chunks of
    [_get_chunks_per_space] concatenate to the text itself, and the chunks
    are those words with a space chunk between consecutive ones. *)
Theorem chunks_per_space_text ws h :
  isspace Py.SP = true →
  Forall (λ w, w ≠ [] ∧ Forall (λ c, isspace c = false) w) ws →
  let input_text := concat (TextSpec.separated [Py.SP] ws) in
  let res := Budou._get_chunks_per_space category isspace input_text h in
  Heap.text res.2 res.1 = input_text
  ∧ Heap.view res.2 res.1
    = TextSpec.separated TextSpec.space_chunk (TextSpec.word_chunk <$> ws).
Proof.
  intros Hsp Hws input_text res.
  unfold res, Budou._get_chunks_per_space, input_text. cbv zeta.
  rewrite split_separated by done.
  destruct (per_space_loop_view 0 (Py.len ws) ws [] h) as [_ Hview].
  { done. }
  { split; [constructor | by intros r ?%elem_of_nil]. }
  simpl in Hview. split; [|done].
  unfold Heap.text, Py.join.
  etrans; [exact (f_equal (λ v, concat (Chunk.word <$> v)) Hview)|].
  rewrite words_separated.
  rewrite <- list_fmap_compose. by rewrite list_fmap_id.
Qed.

Lemma elements_separated attributes ws :
  SerializeSpec.elements attributes
    (TextSpec.separated TextSpec.space_chunk (TextSpec.word_chunk <$> ws))
  = TextSpec.word_elements attributes ws.
Proof.
  induction ws as [|w ws IH]; [done|].
  destruct ws as [|w2 ws]; [done|].
  change (TextSpec.separated TextSpec.space_chunk
            (TextSpec.word_chunk <$> w :: w2 :: ws))
    with (TextSpec.word_chunk w :: TextSpec.space_chunk
          :: TextSpec.separated TextSpec.space_chunk
               (TextSpec.word_chunk <$> w2 :: ws)).
  change (TextSpec.word_elements attributes (w :: w2 :: ws))
    with (Etree.mk "span" attributes (Some w) [] (Some (Py.u " "))
          :: TextSpec.word_elements attributes (w2 :: ws)).
  rewrite <- IH. reflexivity.
Qed.

Lemma accepted_separated (attrib_ok : string → string → bool) attributes ws :
  forallb (SerializeSpec.accepted attrib_ok attributes)
    (TextSpec.separated TextSpec.space_chunk (TextSpec.word_chunk <$> ws))
  = forallb (λ w, Etree.xml_compatible w
                  && SerializeSpec.attributes_ok attrib_ok attributes) ws.
Proof.
  induction ws as [|w ws IH]; [done|].
  destruct ws as [|w2 ws].
  - reflexivity.
  - change (TextSpec.separated TextSpec.space_chunk
              (TextSpec.word_chunk <$> w :: w2 :: ws))
      with (TextSpec.word_chunk w :: TextSpec.space_chunk
            :: TextSpec.separated TextSpec.space_chunk
                 (TextSpec.word_chunk <$> w2 :: ws)).
    cbn [forallb]. rewrite IH. reflexivity.
Qed.

(** X16. Serializing the chunks of the space-delimited path raises
    ValueError when a word of the input is not XML compatible, or the
    input has a word and lxml refuses an attribute.  Otherwise it returns
    [clean_html (tostring doc)] for the document [doc] with one [span] per
    word of the input, in order, each with the attribute mapping and the
    word as text; every span but the last is followed by one space, and a
    text without words gives no span. *)
Theorem chunks_per_space_html (attrib_ok : string → string → bool)
    (tostring : Etree.Element → Py.unicode)
    (clean_html : Py.unicode → Py.unicode) input_text h attributes :
  let res := Budou._get_chunks_per_space category isspace input_text h in
  let words := Py.split isspace input_text in
  Budou._html_serialize attrib_ok tostring clean_html res.2 res.1 attributes
  = if forallb (λ w, Etree.xml_compatible w
                     && SerializeSpec.attributes_ok attrib_ok attributes) words
    then Py.Ok (clean_html
                  (tostring
                     (Etree.mk "span" ∅ None
                        (TextSpec.word_elements attributes words) None)))
    else Py.Raise Py.ValueError.
Proof.
  intros res words. rewrite html_serialize_spec.
  unfold res, Budou._get_chunks_per_space.
  destruct (per_space_loop_view 0 (Py.len (Py.split isspace input_text))
              (Py.split isspace input_text) [] h) as [_ Hview].
  { done. }
  { split; [constructor | by intros r ?%elem_of_nil]. }
  simpl in Hview. rewrite Hview. fold words.
  by rewrite accepted_separated, elements_separated.
Qed.

End PerSpace.

Lemma chunks_per_space_text_witness :
  isspace_table Py.SP = true
  ∧ Forall (λ w, w ≠ [] ∧ Forall (λ c, isspace_table c = false) w)
      [[50504; 45397]; [54616; 49464; 50836]]%N
  ∧ let input_text :=
      concat (TextSpec.separated [Py.SP]
                [[50504; 45397]; [54616; 49464; 50836]]%N) in
    let res := Budou._get_chunks_per_space category_excerpt isspace_table
                 input_text ∅ in
    Heap.text res.2 res.1 = input_text
    ∧ Heap.view res.2 res.1
      = TextSpec.separated TextSpec.space_chunk
          (TextSpec.word_chunk <$> [[50504; 45397]; [54616; 49464; 50836]]%N).
Proof.
  assert (isspace_table Py.SP = true) as Hsp by (vm_compute; reflexivity).
  assert (Forall (λ w, w ≠ [] ∧ Forall (λ c, isspace_table c = false) w)
            [[50504; 45397]; [54616; 49464; 50836]]%N) as Hws
    by (apply (bool_decide_unpack _); vm_compute; exact I).
  split; [exact Hsp|]. split; [exact Hws|].
  exact (chunks_per_space_text category_excerpt isspace_table _ ∅ Hsp Hws).
Defined.

(** ** _preprocess *)

Section PreprocessFacts.

Variable isspace : N → bool.
Variable re_space : N → bool.

Implicit Types (s a b rest : list N) (P : N → Prop).

Lemma lstrip_Forall P s : Forall P s → Forall P (Py.lstrip isspace s).
Proof.
  induction 1 as [|c s Hc Hs IH]; simpl; [constructor|].
  destruct (isspace c); [done|by constructor].
Qed.

Lemma strip_Forall P s : Forall P s → Forall P (Py.strip isspace s).
Proof.
  intros Hs. unfold Py.strip.
  apply Forall_reverse, lstrip_Forall, Forall_reverse. by apply lstrip_Forall.
Qed.

Lemma sub_br_Forall P count skip s :
  P Py.SP → Forall P s → Forall P (Budou.sub_br re_space count skip s).
Proof.
  intros Hsp Hs. revert count skip.
  induction Hs as [|c s Hc Hs IH]; intros count skip; cbn [Budou.sub_br];
    [constructor|].
  destruct skip as [|skip]; [|apply IH].
  destruct count as [|count]; [by constructor|].
  destruct (Budou.match_br re_space (c :: s)); by constructor.
Qed.

Lemma sub_spaces_Forall P in_run s :
  P Py.SP → Forall P s → Forall P (Budou.sub_spaces re_space in_run s).
Proof.
  intros Hsp Hs. revert in_run.
  induction Hs as [|c s Hc Hs IH]; intros in_run; simpl; [constructor|].
  destruct in_run.
  - destruct (re_space c); [apply IH|by constructor].
  - destruct (re_space c && _); by constructor.
Qed.

(** X17. The text returned by [_preprocess] contains no line feed: every
    one of the input is removed and none is added. *)
Theorem preprocess_no_newline s :
  Forall (λ c, c ≠ 10%N) (Budou._preprocess isspace re_space s).
Proof.
  unfold Budou._preprocess.
  apply sub_spaces_Forall; [done|].
  apply sub_br_Forall; [done|].
  apply strip_Forall. unfold Py.remove_char.
  apply Forall_forall. intros c Hc. by apply list_elem_of_filter in Hc as [? _].
Qed.

Lemma sub_spaces_single in_run s :
  TextSpec.single_spaced re_space (Budou.sub_spaces re_space in_run s) = true
  ∧ (if in_run
     then TextSpec.head_space re_space (Budou.sub_spaces re_space true s) = false
     else TextSpec.head_space re_space (Budou.sub_spaces re_space false s) = true →
          TextSpec.head_space re_space s = true).
Proof.
  revert in_run. induction s as [|c s IH]; intros in_run.
  - by destruct in_run.
  - destruct (IH true) as [Ht1 Ht2], (IH false) as [Hf1 Hf2].
    cbn [Budou.sub_spaces]. destruct in_run.
    + destruct (re_space c) eqn:Hc; [done|].
      cbn [TextSpec.single_spaced TextSpec.head_space]. rewrite Hc, Hf1. done.
    + destruct (re_space c) eqn:Hc; cbn [andb].
      * destruct (TextSpec.head_space re_space s) eqn:Hs.
        -- replace (match s with c2 :: _ => re_space c2 | [] => false end)
             with true by (by destruct s).
           cbn [TextSpec.single_spaced TextSpec.head_space].
           change (match Budou.sub_spaces re_space true s with
                   | c2 :: _ => re_space c2 | [] => false end)
             with (TextSpec.head_space re_space (Budou.sub_spaces re_space true s)).
           rewrite Ht2, Ht1, andb_false_r. done.
        -- replace (match s with c2 :: _ => re_space c2 | [] => false end)
             with false by (by destruct s).
           cbn [TextSpec.single_spaced TextSpec.head_space].
           change (match Budou.sub_spaces re_space false s with
                   | c2 :: _ => re_space c2 | [] => false end)
             with (TextSpec.head_space re_space (Budou.sub_spaces re_space false s)).
           destruct (TextSpec.head_space re_space (Budou.sub_spaces re_space false s)) eqn:Hh.
           ++ by specialize (Hf2 eq_refl).
           ++ rewrite andb_false_r, Hf1. done.
      * cbn [TextSpec.single_spaced TextSpec.head_space]. rewrite Hc, Hf1. done.
Qed.

(** X18. In the text returned by [_preprocess] no two adjacent characters
    are both whitespace: every run of two or more whitespace characters
    has been replaced by one space. *)
Theorem preprocess_single_spaced s :
  TextSpec.single_spaced re_space (Budou._preprocess isspace re_space s) = true.
Proof. unfold Budou._preprocess. apply (sub_spaces_single false). Qed.

End PreprocessFacts.

Section PreprocessTags.

Variable isspace : N → bool.
Variable re_space : N → bool.

Implicit Types (s a b rest : list N).

Lemma remove_char_id c s : Forall (λ x, x ≠ c) s → Py.remove_char c s = s.
Proof.
  unfold Py.remove_char, Py.unicode.
  induction 1 as [|x s Hx _ IH]; [done|].
  rewrite filter_cons_True by done. by rewrite IH.
Qed.

Lemma lstrip_id s :
  (∀ c, head s = Some c → isspace c = false) → Py.lstrip isspace s = s.
Proof.
  destruct s as [|c s]; [done|]. intros Hhead. simpl.
  by rewrite (Hhead c eq_refl).
Qed.

Lemma strip_id s :
  (∀ c, head s = Some c → isspace c = false) →
  (∀ c, last s = Some c → isspace c = false) →
  Py.strip isspace s = s.
Proof.
  intros Hhead Hlast. unfold Py.strip. rewrite (lstrip_id s) by done.
  rewrite lstrip_id; [apply reverse_involutive|].
  intros c Hc. apply Hlast.
  by rewrite <- (reverse_involutive s), last_reverse.
Qed.

Lemma strip_id_Forall s :
  Forall (λ c, isspace c = false) s → Py.strip isspace s = s.
Proof.
  intros Hs. apply strip_id; intros c Hc.
  - apply head_Some in Hc as [s' ->]. by apply Forall_cons in Hs as [? _].
  - apply last_Some_elem_of in Hc. by eapply Forall_forall in Hs.
Qed.

Lemma match_br_other c s :
  c ≠ 60%N → Budou.match_br re_space (c :: s) = None.
Proof.
  intros Hc. unfold Budou.match_br.
  repeat (case_match; try done).
Qed.

Lemma sub_br_zero s : Budou.sub_br re_space 0 0 s = s.
Proof. induction s as [|c s IH]; [done|]. cbn [Budou.sub_br]. by rewrite IH. Qed.

Lemma sub_br_prefix count a s :
  Forall (λ c, c ≠ 60%N) a →
  Budou.sub_br re_space count 0 (a ++ s) = a ++ Budou.sub_br re_space count 0 s.
Proof.
  induction 1 as [|c a Hc _ IH]; [done|].
  cbn [app Budou.sub_br]. rewrite match_br_other by done.
  rewrite IH. by destruct count.
Qed.

Lemma sub_br_tag count s :
  re_space 62%N = false →
  Budou.sub_br re_space (S count) 0 (TextSpec.BR ++ s)
  = Py.SP :: Budou.sub_br re_space count 0 s.
Proof.
  intros Hgt.
  change (TextSpec.BR ++ s) with (60 :: 98 :: 114 :: 62 :: s)%N.
  cbn [Budou.sub_br].
  assert (Budou.match_br re_space (60 :: 98 :: 114 :: 62 :: s)%N = Some 4%nat)
    as ->.
  { unfold Budou.match_br. cbn [Budou.space_run]. rewrite Hgt. simpl.
    by rewrite Hgt. }
  reflexivity.
Qed.

Lemma single_spaced_app a s :
  Forall (λ c, re_space c = false) a →
  TextSpec.single_spaced re_space (a ++ s) = TextSpec.single_spaced re_space s.
Proof.
  induction 1 as [|c a Hc _ IH]; [done|].
  cbn [app TextSpec.single_spaced]. by rewrite Hc, IH.
Qed.

Lemma single_spaced_space s :
  Forall (λ c, re_space c = false) s →
  TextSpec.single_spaced re_space (Py.SP :: s) = true.
Proof.
  intros Hs. cbn [TextSpec.single_spaced].
  rewrite <- (app_nil_r s) at 2. rewrite single_spaced_app by done.
  destruct Hs as [|c s Hc _]; [by rewrite andb_false_r|].
  by rewrite Hc, andb_false_r.
Qed.

Lemma sub_spaces_id s :
  TextSpec.single_spaced re_space s = true →
  Budou.sub_spaces re_space false s = s.
Proof.
  induction s as [|c s IH]; [done|]. cbn [TextSpec.single_spaced Budou.sub_spaces].
  intros [Hneg Hs]%andb_true_iff. apply negb_true_iff in Hneg.
  rewrite Hneg. by rewrite IH.
Qed.

(** X19. A text without line feed and without ['<'] that neither starts
    nor ends with whitespace and has no two adjacent whitespace characters
    is returned unchanged by [_preprocess]. *)
Theorem preprocess_clean s :
  Forall (λ c, c ≠ 10%N ∧ c ≠ 60%N) s →
  (∀ c, head s = Some c → isspace c = false) →
  (∀ c, last s = Some c → isspace c = false) →
  TextSpec.single_spaced re_space s = true →
  Budou._preprocess isspace re_space s = s.
Proof.
  intros Hchars Hhead Hlast Hsingle. unfold Budou._preprocess.
  rewrite remove_char_id by (eapply Forall_impl; [exact Hchars|by intros ? []]).
  rewrite strip_id by done.
  rewrite <- (app_nil_r s) at 1.
  rewrite sub_br_prefix by (eapply Forall_impl; [exact Hchars|by intros ? []]).
  rewrite app_nil_r. by apply sub_spaces_id.
Qed.

(** X20. Only the first two [<br>] tags are replaced.  For a text free of
    whitespace and line feeds of the form [a <br> b <br> rest], where [a]
    and [b] contain no ['<'] and [b] is not empty, [_preprocess] returns
    [a], a space, [b], a space, and [rest] as it is, whatever further
    tags [rest] contains. *)
Theorem preprocess_two_tags a b rest :
  Forall (λ c, isspace c = false ∧ re_space c = false) TextSpec.BR →
  Forall (λ c, c ≠ 10%N ∧ c ≠ 60%N ∧ isspace c = false ∧ re_space c = false) a →
  Forall (λ c, c ≠ 10%N ∧ c ≠ 60%N ∧ isspace c = false ∧ re_space c = false) b →
  b ≠ [] →
  Forall (λ c, c ≠ 10%N ∧ isspace c = false ∧ re_space c = false) rest →
  Budou._preprocess isspace re_space
    (a ++ TextSpec.BR ++ b ++ TextSpec.BR ++ rest)
  = a ++ Py.SP :: b ++ Py.SP :: rest.
Proof.
  intros Htag Ha Hb Hne Hrest. unfold Budou._preprocess.
  assert (Forall (λ c, c ≠ 10%N) TextSpec.BR) as Htag10
    by (by repeat constructor).
  assert (re_space 62%N = false) as Hgt.
  { assert (62%N ∈ TextSpec.BR) as Hin by (vm_compute; set_solver).
    by eapply Forall_forall in Htag as [_ ?]. }
  rewrite remove_char_id.
  2:{ apply Forall_app; split; [eapply Forall_impl; [exact Ha|intros ? ?; simpl in *; tauto]|].
      apply Forall_app; split; [exact Htag10|].
      apply Forall_app; split; [eapply Forall_impl; [exact Hb|intros ? ?; simpl in *; tauto]|].
      apply Forall_app; split; [exact Htag10|].
      eapply Forall_impl; [exact Hrest|intros ? ?; simpl in *; tauto]. }
  rewrite strip_id_Forall.
  2:{ apply Forall_app; split; [eapply Forall_impl; [exact Ha|intros ? ?; simpl in *; tauto]|].
      apply Forall_app; split; [eapply Forall_impl; [exact Htag|intros ? ?; simpl in *; tauto]|].
      apply Forall_app; split; [eapply Forall_impl; [exact Hb|intros ? ?; simpl in *; tauto]|].
      apply Forall_app; split; [eapply Forall_impl; [exact Htag|intros ? ?; simpl in *; tauto]|].
      eapply Forall_impl; [exact Hrest|intros ? ?; simpl in *; tauto]. }
  assert (∀ l, Forall (λ c, c ≠ 10%N ∧ c ≠ 60%N ∧ isspace c = false
                           ∧ re_space c = false) l →
               Forall (λ c, c ≠ 60%N) l) as Hlt.
  { intros l Hl. eapply Forall_impl; [exact Hl|]. intros ? ?; simpl in *; tauto. }
  assert (∀ l, Forall (λ c, c ≠ 10%N ∧ c ≠ 60%N ∧ isspace c = false
                           ∧ re_space c = false) l →
               Forall (λ c, re_space c = false) l) as Hns.
  { intros l Hl. eapply Forall_impl; [exact Hl|]. intros ? ?; simpl in *; tauto. }
  unfold Py.re_I.
  rewrite sub_br_prefix, sub_br_tag, sub_br_prefix, sub_br_tag, sub_br_zero
    by auto.
  apply sub_spaces_id.
  rewrite single_spaced_app by auto.
  destruct b as [|c b]; [done|].
  cbn [app TextSpec.single_spaced]. cbn [app TextSpec.single_spaced] in *.
  apply Forall_cons in Hb as [(_ & _ & _ & Hc) Hb].
  rewrite Hc, andb_false_r. cbn [negb andb].
  rewrite single_spaced_app by auto.
  apply (single_spaced_space rest).
  eapply Forall_impl; [exact Hrest|]. intros ? ?; simpl in *; tauto.
Qed.

End PreprocessTags.

Lemma preprocess_clean_witness :
  Forall (λ c, c ≠ 10%N ∧ c ≠ 60%N) (Py.u "3 apples")
  ∧ (∀ c, head (Py.u "3 apples") = Some c → isspace_table c = false)
  ∧ (∀ c, last (Py.u "3 apples") = Some c → isspace_table c = false)
  ∧ TextSpec.single_spaced isspace_table (Py.u "3 apples") = true
  ∧ Budou._preprocess isspace_table isspace_table (Py.u "3 apples")
    = Py.u "3 apples".
Proof.
  assert (Forall (λ c, c ≠ 10%N ∧ c ≠ 60%N) (Py.u "3 apples")) as Hchars
    by (apply (bool_decide_unpack _); vm_compute; exact I).
  assert (∀ c, head (Py.u "3 apples") = Some c → isspace_table c = false)
    as Hhead by (intros c [= <-]; vm_compute; reflexivity).
  assert (∀ c, last (Py.u "3 apples") = Some c → isspace_table c = false)
    as Hlast by (intros c [= <-]; vm_compute; reflexivity).
  assert (TextSpec.single_spaced isspace_table (Py.u "3 apples") = true)
    as Hsingle by (vm_compute; reflexivity).
  split; [exact Hchars|]. split; [exact Hhead|]. split; [exact Hlast|].
  split; [exact Hsingle|].
  exact (preprocess_clean isspace_table isspace_table _ Hchars Hhead Hlast
           Hsingle).
Defined.

Lemma preprocess_two_tags_witness :
  Forall (λ c, isspace_table c = false ∧ isspace_table c = false) TextSpec.BR
  ∧ Forall (λ c, c ≠ 10%N ∧ c ≠ 60%N ∧ isspace_table c = false
                 ∧ isspace_table c = false) (Py.u "a")
  ∧ Forall (λ c, c ≠ 10%N ∧ c ≠ 60%N ∧ isspace_table c = false
                 ∧ isspace_table c = false) (Py.u "b")
  ∧ Py.u "b" ≠ []
  ∧ Forall (λ c, c ≠ 10%N ∧ isspace_table c = false
                 ∧ isspace_table c = false) (Py.u "c<br>d")
  ∧ Budou._preprocess isspace_table isspace_table
      (Py.u "a" ++ TextSpec.BR ++ Py.u "b" ++ TextSpec.BR ++ Py.u "c<br>d")
    = Py.u "a" ++ Py.SP :: Py.u "b" ++ Py.SP :: Py.u "c<br>d".
Proof.
  assert (Forall (λ c, isspace_table c = false ∧ isspace_table c = false)
            TextSpec.BR) as Htag
    by (apply (bool_decide_unpack _); vm_compute; exact I).
  assert (Forall (λ c, c ≠ 10%N ∧ c ≠ 60%N ∧ isspace_table c = false
                       ∧ isspace_table c = false) (Py.u "a")) as Ha
    by (apply (bool_decide_unpack _); vm_compute; exact I).
  assert (Forall (λ c, c ≠ 10%N ∧ c ≠ 60%N ∧ isspace_table c = false
                       ∧ isspace_table c = false) (Py.u "b")) as Hb
    by (apply (bool_decide_unpack _); vm_compute; exact I).
  assert (Py.u "b" ≠ []) as Hne by discriminate.
  assert (Forall (λ c, c ≠ 10%N ∧ isspace_table c = false
                       ∧ isspace_table c = false) (Py.u "c<br>d")) as Hrest
    by (apply (bool_decide_unpack _); vm_compute; exact I).
  split; [exact Htag|]. split; [exact Ha|]. split; [exact Hb|].
  split; [exact Hne|]. split; [exact Hrest|].
  exact (preprocess_two_tags isspace_table isspace_table _ _ _ Htag Ha Hb Hne
           Hrest).
Defined.
